(** * VPhysicsBullet: collision shapes, mass properties and legacy import

    A shallow embedding of [physics_collision.cpp] and [physics_collision.h].

    Conventions of the embedding:
    - [btScalar] is modelled by the exact rationals [Q]; comparisons are
      the boolean ones of the source, equalities of computed scalars are
      stated with [==].  In [Q] a quotient by zero evaluates to zero, so
      the divisor of every division that matters is exposed separately.
    - [btAlignedObjectArray] and [CUtlVector] are lists indexed by [nth].
    - an object reached through a pointer is passed and returned by value;
      where identity matters (the compounds of the cache, the attached
      bodies) a pointer is a handle of type [nat].
    - the raw import buffer is a byte-addressed memory [Z -> Z]; a stored
      float is read as the rational its binary32 pattern denotes. *)

From Stdlib Require Import ZArith QArith Qabs List Bool Lia Lqa Permutation.
Import ListNotations.

Set Implicit Arguments.

(* ================================================================== *)
(** * Scalars and vectors (LinearMath) *)
(* ================================================================== *)

Definition btScalar := Q.

Definition btFabs (x : btScalar) : btScalar := Qabs x.

(** [a < b], [a > b], [a >= b] on scalars, as booleans. *)
Definition Qltb (a b : Q) : bool := negb (Qle_bool b a).
Definition Qgtb (a b : Q) : bool := Qltb b a.
Definition Qgeb (a b : Q) : bool := Qle_bool b a.

Definition Qmin' (a b : Q) : Q := if Qltb b a then b else a.
Definition Qmax' (a b : Q) : Q := if Qltb a b then b else a.

Record btVector3 := mkV { getX : btScalar; getY : btScalar; getZ : btScalar }.

Declare Scope vec_scope.
Delimit Scope vec_scope with V.

Module V3.

Definition zero : btVector3 := mkV 0 0 0.
Definition splat (s : btScalar) : btVector3 := mkV s s s.

Definition add (a b : btVector3) :=
  mkV (getX a + getX b) (getY a + getY b) (getZ a + getZ b).
Definition sub (a b : btVector3) :=
  mkV (getX a - getX b) (getY a - getY b) (getZ a - getZ b).
(** [operator*] on two vectors is component-wise. *)
Definition mul (a b : btVector3) :=
  mkV (getX a * getX b) (getY a * getY b) (getZ a * getZ b).
Definition scale (s : btScalar) (a : btVector3) :=
  mkV (s * getX a) (s * getY a) (s * getZ a).
Definition div (a : btVector3) (s : btScalar) :=
  mkV (getX a / s) (getY a / s) (getZ a / s).
Definition neg (a : btVector3) := mkV (- getX a) (- getY a) (- getZ a).
Definition absolute (a : btVector3) :=
  mkV (btFabs (getX a)) (btFabs (getY a)) (btFabs (getZ a)).
Definition dot (a b : btVector3) : btScalar :=
  getX a * getX b + getY a * getY b + getZ a * getZ b.
Definition length2 (a : btVector3) : btScalar := dot a a.
Definition cross (a b : btVector3) :=
  mkV (getY a * getZ b - getZ a * getY b)
      (getZ a * getX b - getX a * getZ b)
      (getX a * getY b - getY a * getX b).
(** [a.triple(b, c)] is [a . (b x c)]. *)
Definition triple (a b c : btVector3) : btScalar :=
  getX a * (getY b * getZ c - getZ b * getY c) +
  getY a * (getZ b * getX c - getX b * getZ c) +
  getZ a * (getX b * getY c - getY b * getX c).
Definition setMin (a b : btVector3) :=
  mkV (Qmin' (getX a) (getX b)) (Qmin' (getY a) (getY b)) (Qmin' (getZ a) (getZ b)).
Definition setMax (a b : btVector3) :=
  mkV (Qmax' (getX a) (getX b)) (Qmax' (getY a) (getY b)) (Qmax' (getZ a) (getZ b)).

(** [v[i]] for [i] in 0..2. *)
Definition get (a : btVector3) (i : nat) : btScalar :=
  match i with O => getX a | S O => getY a | _ => getZ a end.

(** Exact comparison of all three components ([operator==]). *)
Definition eqb (a b : btVector3) : bool :=
  Qeq_bool (getX a) (getX b) && Qeq_bool (getY a) (getY b) && Qeq_bool (getZ a) (getZ b).

(** Equality of vectors up to equality of rationals. *)
Definition eqv (a b : btVector3) : Prop :=
  getX a == getX b /\ getY a == getY b /\ getZ a == getZ b.

End V3.

Infix "+v" := V3.add (at level 50, left associativity) : vec_scope.
Infix "-v" := V3.sub (at level 50, left associativity) : vec_scope.
Infix "*v" := V3.mul (at level 40, left associativity) : vec_scope.
Infix "*s" := V3.scale (at level 40, left associativity) : vec_scope.
Infix "/s" := V3.div (at level 40, left associativity) : vec_scope.
Infix "=v" := V3.eqv (at level 70, no associativity) : vec_scope.

Local Open Scope vec_scope.
Local Open Scope Q_scope.

(** An axis-aligned bounding box, [(aabbMin, aabbMax)]. *)
Definition Aabb := (btVector3 * btVector3)%type.

(* ================================================================== *)
(** * Collaborators outside the repository *)
(* ================================================================== *)

(** The position type of the host ([Vector]). *)
Definition Vector := btVector3.

(** What the code takes from [physics_internal.h] and from Bullet, none
    of which is part of the shown sources: the unit conversion macros and
    the bounding boxes and stored dimensions of Bullet's shapes. *)
Record Externals := {
  (** [HL2BULLET(x)]: a legacy distance in internal units. *)
  HL2BULLET : Q -> btScalar;
  (** [ConvertPositionToBullet(in, out)]. *)
  ConvertPositionToBullet : Vector -> btVector3;
  (** [btBoxShape::getHalfExtentsWithoutMargin] of a box built from the
      given half extents, after [setMargin] with the given margin. *)
  btBoxShape_dimensions : btVector3 -> btScalar -> btVector3;
  (** [btBoxShape::getAabb] under the identity transform, from the stored
      dimensions and the margin. *)
  btBoxShape_getAabb : btVector3 -> btScalar -> Aabb;
  (** [btConvexHullShape::getAabb] under the identity transform, from the
      points and the margin. *)
  btConvexHullShape_getAabb : list btVector3 -> btScalar -> Aabb;
  (** [btCompoundShape::getAabb] under the identity transform, from the
      local bounds of the compound. *)
  btCompoundShape_getAabb : Aabb -> Aabb;
  (** [btVector3::normalize]. *)
  btVector3_normalize : btVector3 -> btVector3
}.

(** [VPHYSICS_CONVEX_DISTANCE_MARGIN] is [HL2BULLET(0.25f)]. *)
Definition VPHYSICS_CONVEX_DISTANCE_MARGIN (E : Externals) : btScalar :=
  HL2BULLET E (25 # 100).

(* ================================================================== *)
(** * Utility for convexes and collideables *)
(* ================================================================== *)

Definition BoxInertia (extents : btVector3) : btVector3 :=
  let l2 := extents *v extents in
  (1 / 12) *s mkV (getY l2 + getZ l2) (getX l2 + getZ l2) (getX l2 + getY l2).

Definition OffsetInertia (inertia origin : btVector3) (absolute : bool) : btVector3 :=
  let o2 := V3.length2 origin in
  let newInertia := inertia +v mkV o2 o2 o2 -v (origin *v origin) in
  if absolute then V3.absolute newInertia else newInertia.

(* ================================================================== *)
(** * Convexes *)
(* ================================================================== *)

Inductive Owner :=
| OWNER_GAME      (* created by the game, not in a compound yet *)
| OWNER_COMPOUND  (* part of a compound, destroyed with it *)
| OWNER_INTERNAL. (* managed internally *)

Definition Owner_eqb (a b : Owner) : bool :=
  match a, b with
  | OWNER_GAME, OWNER_GAME | OWNER_COMPOUND, OWNER_COMPOUND
  | OWNER_INTERNAL, OWNER_INTERNAL => true
  | _, _ => false
  end.

(** ** Convex hulls *)

Record CPhysConvex_Hull := mkHull {
  hull_points : list btVector3;          (* m_Shape.getPoints() *)
  hull_margin : btScalar;                (* m_Shape.getMargin() *)
  hull_userIndex : Z;                    (* m_Shape.getUserIndex() *)
  m_TriangleIndices : list nat;
  m_TrianglePlanes : list (btVector3 * btScalar);   (* btVector4: normal, w *)
  m_TriangleMaterials : list Z;
  hull_Volume : btScalar;
  hull_MassCenter : btVector3;
  hull_Inertia : btVector3
}.

(** [points[indices[i]]]. *)
Definition point_at (points : list btVector3) (indices : list nat) (i : nat) : btVector3 :=
  nth (nth i indices O) points V3.zero.

(** [CPhysConvex_Hull::Initialize] followed by the body of the constructor
    from points and indices: the volume starts as the sentinel -1. *)
Definition CPhysConvex_Hull_new (E : Externals) (points : list btVector3)
    (indices : list nat) (triangleCount : nat) : CPhysConvex_Hull :=
  {| hull_points := points;
     hull_margin := VPHYSICS_CONVEX_DISTANCE_MARGIN E;
     hull_userIndex := 0;
     m_TriangleIndices := firstn (triangleCount * 3) indices;
     m_TrianglePlanes := [];
     m_TriangleMaterials := [];
     hull_Volume := - (1);
     hull_MassCenter := V3.zero;
     hull_Inertia := V3.zero |}.

Section VolumeProperties.

Variables (points : list btVector3) (indices : list nat).

Let ref : btVector3 := point_at points indices 0.

(** [btFabs((p0 - ref).triple(p1 - ref, p2 - ref))] for the triangle
    starting at [indexIndex]. *)
Definition tetrahedronSixVolume (indexIndex : nat) : btScalar :=
  let p0 := point_at points indices indexIndex in
  let p1 := point_at points indices (indexIndex + 1) in
  let p2 := point_at points indices (indexIndex + 2) in
  btFabs (V3.triple (p0 -v ref) (p1 -v ref) (p2 -v ref)).

(** [(0.25f * tetrahedronSixVolume) * (p0 + p1 + p2 + ref)]. *)
Definition tetrahedronCenterTerm (indexIndex : nat) : btVector3 :=
  let p0 := point_at points indices indexIndex in
  let p1 := point_at points indices (indexIndex + 1) in
  let p2 := point_at points indices (indexIndex + 2) in
  ((25 # 100) * tetrahedronSixVolume indexIndex) *s (p0 +v p1 +v p2 +v ref).

(** The first loop of [CalculateVolumeProperties]:
    [for (indexIndex = ...; indexIndex < indexCount; indexIndex += 3)],
    carrying [(sixVolume, massCenterSum)]. *)
Fixpoint volume_loop (fuel indexIndex indexCount : nat)
    (acc : btScalar * btVector3) : btScalar * btVector3 :=
  match fuel with
  | O => acc
  | S fuel' =>
      if (indexIndex <? indexCount)%nat then
        volume_loop fuel' (indexIndex + 3) indexCount
          (fst acc + tetrahedronSixVolume indexIndex,
           snd acc +v tetrahedronCenterTerm indexIndex)
      else acc
  end.

(** The second loop, accumulating [m_Inertia] about [massCenter]. *)
Fixpoint inertia_loop (fuel indexIndex indexCount : nat)
    (massCenter : btVector3) (acc : btVector3) : btVector3 :=
  match fuel with
  | O => acc
  | S fuel' =>
      if (indexIndex <? indexCount)%nat then
        let a := point_at points indices indexIndex -v massCenter in
        let b := point_at points indices (indexIndex + 1) -v massCenter in
        let c := point_at points indices (indexIndex + 2) -v massCenter in
        let i := (btFabs (V3.triple a b c) * ((1 # 10) / 6)) *s
                 (a *v a +v b *v b +v c *v c +v a *v b +v a *v c +v b *v c) in
        inertia_loop fuel' (indexIndex + 3) indexCount massCenter
          (mkV (getX acc + (getY i + getZ i))
               (getY acc + (getZ i + getX i))
               (getZ acc + (getX i + getY i)))
      else acc
  end.

End VolumeProperties.

(** [CPhysConvex_Hull::CalculateVolumeProperties].  The loops advance by
    three indices, so [indexCount] iterations are always enough fuel. *)
Definition CalculateVolumeProperties (E : Externals) (h : CPhysConvex_Hull)
    : CPhysConvex_Hull :=
  if Qgeb (hull_Volume h) 0 then h
  else
    let points := hull_points h in
    let indices := m_TriangleIndices h in
    let indexCount := length indices in
    let '(sixVolume, massCenterSum) :=
      volume_loop points indices indexCount 3 indexCount (0, V3.zero) in
    let volume := (1 / 6) * sixVolume in
    if Qgtb volume 0 then
      let massCenter := massCenterSum /s sixVolume in
      let inertia := inertia_loop points indices indexCount 0 indexCount massCenter V3.zero in
      mkHull points (hull_margin h) (hull_userIndex h) indices (m_TrianglePlanes h)
             (m_TriangleMaterials h)
             volume massCenter (V3.absolute (inertia /s volume))
    else
      (* Use a box approximation. *)
      let '(aabbMin, aabbMax) := btConvexHullShape_getAabb E points (hull_margin h) in
      let massCenter := (1 # 2) *s (aabbMin +v aabbMax) in
      mkHull points (hull_margin h) (hull_userIndex h) indices (m_TrianglePlanes h)
             (m_TriangleMaterials h)
             volume massCenter
             (OffsetInertia (BoxInertia (aabbMax -v aabbMin)) massCenter true).

Definition Hull_GetVolume (E : Externals) (h : CPhysConvex_Hull) : btScalar :=
  hull_Volume (CalculateVolumeProperties E h).
Definition Hull_GetMassCenter (E : Externals) (h : CPhysConvex_Hull) : btVector3 :=
  hull_MassCenter (CalculateVolumeProperties E h).
Definition Hull_GetInertia (E : Externals) (h : CPhysConvex_Hull) : btVector3 :=
  hull_Inertia (CalculateVolumeProperties E h).

(** ** Per-triangle materials *)

(** [plane.dot(point) - plane.getW()] in absolute value. *)
Definition plane_distance (plane : btVector3 * btScalar) (point : btVector3) : btScalar :=
  btFabs (V3.dot (fst plane) point - snd plane).

Definition plane_zero : btVector3 * btScalar := (V3.zero, 0).

(** The loop of [GetTriangleMaterialIndex], as written:
    [for (triangleIndex = 1; triangleCount < triangleIndex; ++triangleIndex)]
    carrying [(closestTriangle, closestTriangleDistance)].  [None] when the
    fuel runs out before the condition fails. *)
Fixpoint closest_loop (fuel : nat) (planes : list (btVector3 * btScalar))
    (point : btVector3) (triangleCount triangleIndex : nat)
    (closest : nat * btScalar) : option (nat * btScalar) :=
  if (triangleCount <? triangleIndex)%nat then
    match fuel with
    | O => None
    | S fuel' =>
        let distance := plane_distance (nth triangleIndex planes plane_zero) point in
        closest_loop fuel' planes point triangleCount (S triangleIndex)
          (if Qltb distance (snd closest) then (triangleIndex, distance) else closest)
    end
  else Some closest.

(** [CPhysConvex_Hull::GetTriangleMaterialIndex]. *)
Definition GetTriangleMaterialIndex (fuel : nat) (h : CPhysConvex_Hull)
    (point : btVector3) : option Z :=
  let triangleCount := length (m_TriangleMaterials h) in
  if (triangleCount =? 0)%nat then Some 0%Z
  else
    let planes := m_TrianglePlanes h in
    match closest_loop fuel planes point triangleCount 1
            (O, plane_distance (nth 0 planes plane_zero) point) with
    | Some (closestTriangle, _) => Some (nth closestTriangle (m_TriangleMaterials h) 0%Z)
    | None => None
    end.

(** [CPhysConvex_Hull::CalculateTrianglePlanes]: one plane per triangle,
    [triangleIndex] running over [0 .. triangleCount - 1]. *)
Definition CalculateTrianglePlanes (E : Externals) (h : CPhysConvex_Hull)
    : CPhysConvex_Hull :=
  match m_TrianglePlanes h with
  | _ :: _ => h
  | [] =>
      let triangleCount := (length (m_TriangleIndices h) / 3)%nat in
      let points := hull_points h in
      let indices := m_TriangleIndices h in
      let plane (triangleIndex : nat) :=
        let indexIndex := (triangleIndex * 3)%nat in
        let v1 := point_at points indices indexIndex in
        let normal := btVector3_normalize E
          (V3.cross (point_at points indices (indexIndex + 1))
                    (point_at points indices (indexIndex + 2))) in
        (normal, V3.dot v1 normal) in
      mkHull points (hull_margin h) (hull_userIndex h) indices
             (map plane (seq 0 triangleCount))
             (m_TriangleMaterials h)
             (hull_Volume h) (hull_MassCenter h) (hull_Inertia h)
  end.

(** ** Bounding boxes *)

Record CPhysConvex_Box := mkBox {
  box_halfExtents : btVector3;   (* m_Shape.getHalfExtentsWithoutMargin() *)
  box_margin : btScalar;         (* m_Shape.getMargin() *)
  m_Origin : btVector3
}.

Definition CPhysConvex_Box_new (E : Externals) (halfExtents origin : btVector3)
    : CPhysConvex_Box :=
  {| box_halfExtents :=
       btBoxShape_dimensions E halfExtents (VPHYSICS_CONVEX_DISTANCE_MARGIN E);
     box_margin := VPHYSICS_CONVEX_DISTANCE_MARGIN E;
     m_Origin := origin |}.

Definition Box_GetVolume (b : CPhysConvex_Box) : btScalar :=
  let halfExtents := box_halfExtents b in
  8 * getX halfExtents * getY halfExtents * getZ halfExtents.

Definition Box_GetSurfaceArea (b : CPhysConvex_Box) : btScalar :=
  let halfExtents := box_halfExtents b in
  8 * getX halfExtents * getY halfExtents +
  4 * getZ halfExtents * (getX halfExtents + getY halfExtents).

Definition Box_GetInertia (b : CPhysConvex_Box) : btVector3 :=
  BoxInertia (2 *s box_halfExtents b).

(** ** The convex base class and its virtual methods *)

Inductive ConvexShape :=
| HullShape (h : CPhysConvex_Hull)
| BoxShape (b : CPhysConvex_Box).

Record CPhysConvex := mkConvex { m_Owner : Owner; convex_shape : ConvexShape }.

Definition GetOwner (c : CPhysConvex) : Owner := m_Owner c.
Definition SetOwner (c : CPhysConvex) (owner : Owner) : CPhysConvex :=
  mkConvex owner (convex_shape c).

(** The protected constructor of [CPhysConvex] tags the object [OWNER_GAME]. *)
Definition new_hull (h : CPhysConvex_Hull) : CPhysConvex := mkConvex OWNER_GAME (HullShape h).
Definition new_box (b : CPhysConvex_Box) : CPhysConvex := mkConvex OWNER_GAME (BoxShape b).

Definition GetVolume (E : Externals) (c : CPhysConvex) : btScalar :=
  match convex_shape c with
  | HullShape h => Hull_GetVolume E h
  | BoxShape b => Box_GetVolume b
  end.

Definition GetMassCenter (E : Externals) (c : CPhysConvex) : btVector3 :=
  match convex_shape c with
  | HullShape h => Hull_GetMassCenter E h
  | BoxShape _ => V3.zero
  end.

Definition GetInertia (E : Externals) (c : CPhysConvex) : btVector3 :=
  match convex_shape c with
  | HullShape h => Hull_GetInertia E h
  | BoxShape b => Box_GetInertia b
  end.

Definition GetOriginInCompound (c : CPhysConvex) : btVector3 :=
  match convex_shape c with
  | HullShape _ => V3.zero
  | BoxShape b => m_Origin b
  end.

(** [GetShape()->getAabb(identity, min, max)]. *)
Definition convex_getAabb (E : Externals) (c : CPhysConvex) : Aabb :=
  match convex_shape c with
  | HullShape h => btConvexHullShape_getAabb E (hull_points h) (hull_margin h)
  | BoxShape b => btBoxShape_getAabb E (box_halfExtents b) (box_margin b)
  end.

(** [CPhysicsCollision::ConvexFree]: [None] is the deleted object. *)
Definition ConvexFree (pConvex : CPhysConvex) : option CPhysConvex :=
  if Owner_eqb (GetOwner pConvex) OWNER_GAME then None else Some pConvex.

(* ================================================================== *)
(** * Collideables *)
(* ================================================================== *)

Inductive CollideOwner := COLLIDE_OWNER_GAME | COLLIDE_OWNER_INTERNAL.

(** A child of a compound shape: the convex its user pointer leads to and
    the origin of its (rotation-free) transform. *)
Record Child := mkChild { child_convex : CPhysConvex; child_origin : btVector3 }.

(** Bullet's [btCompoundShape], reduced to what the collideable uses: the
    ordered children and the local bounds kept up to date by
    [addChildShape] and [recalculateLocalAabb]. *)
Module btCompoundShape.

Record t := mk { children : list Child; localAabb : Aabb }.

Definition BT_LARGE_FLOAT : btScalar := 1000000000000000000.

Definition emptyAabb : Aabb :=
  (V3.splat BT_LARGE_FLOAT, V3.splat (- BT_LARGE_FLOAT)).

Definition empty : t := mk [] emptyAabb.

Definition getNumChildShapes (s : t) : nat := length (children s).

Definition childAabb (E : Externals) (ch : Child) : Aabb :=
  let '(mn, mx) := convex_getAabb E (child_convex ch) in
  (mn +v child_origin ch, mx +v child_origin ch).

Definition extend (box : Aabb) (other : Aabb) : Aabb :=
  (V3.setMin (fst box) (fst other), V3.setMax (snd box) (snd other)).

Definition addChildShape (E : Externals) (s : t) (origin : btVector3)
    (convex : CPhysConvex) : t :=
  let ch := mkChild convex origin in
  mk (children s ++ [ch]) (extend (localAabb s) (childAabb E ch)).

(** [updateChildTransform(childIndex, transform, false)]: the bounds are
    not recalculated. *)
Fixpoint setOrigin (l : list Child) (childIndex : nat) (origin : btVector3) : list Child :=
  match l, childIndex with
  | [], _ => []
  | ch :: rest, O => mkChild (child_convex ch) origin :: rest
  | ch :: rest, S i => ch :: setOrigin rest i origin
  end.

Definition updateChildTransform (s : t) (childIndex : nat) (origin : btVector3) : t :=
  mk (setOrigin (children s) childIndex origin) (localAabb s).

Definition recalculateLocalAabb (E : Externals) (s : t) : t :=
  mk (children s)
     (fold_left (fun box ch => extend box (childAabb E ch)) (children s) emptyAabb).

Definition getAabb (E : Externals) (s : t) : Aabb :=
  btCompoundShape_getAabb E (localAabb s).

End btCompoundShape.

Record CPhysCollide_Compound := mkCompound {
  m_Shape : btCompoundShape.t;
  m_Volume : btScalar;
  m_MassCenter : btVector3;
  m_Inertia : btVector3;
  collide_Owner : CollideOwner;
  m_ObjectReferenceList : option nat   (* first attached body, if any *)
}.

Definition set_Volume (c : CPhysCollide_Compound) (v : btScalar) :=
  mkCompound (m_Shape c) v (m_MassCenter c) (m_Inertia c) (collide_Owner c)
             (m_ObjectReferenceList c).
Definition set_Inertia (c : CPhysCollide_Compound) (i : btVector3) :=
  mkCompound (m_Shape c) (m_Volume c) (m_MassCenter c) i (collide_Owner c)
             (m_ObjectReferenceList c).
Definition Collide_SetOwner (c : CPhysCollide_Compound) (o : CollideOwner) :=
  mkCompound (m_Shape c) (m_Volume c) (m_MassCenter c) (m_Inertia c) o
             (m_ObjectReferenceList c).

(** [CPhysCollide_Compound::GetVolume]: the value returned and the object
    with its cached volume filled in. *)
Definition Compound_GetVolume (E : Externals) (c : CPhysCollide_Compound)
    : btScalar * CPhysCollide_Compound :=
  if Qltb (m_Volume c) 0 then
    let volume :=
      fold_left (fun volume ch => volume + GetVolume E (child_convex ch))
                (btCompoundShape.children (m_Shape c)) 0 in
    (volume, set_Volume c volume)
  else (m_Volume c, c).

(** Which branch of [CalculateInertia] runs: the sum normalised by
    [volume] (the divisor is recorded), or the box approximation. *)
Inductive InertiaPath :=
| DivideByVolume (volume : btScalar)
| BoxApproximation.

Definition CalculateInertia_path (E : Externals) (c : CPhysCollide_Compound)
    : InertiaPath :=
  let volume := fst (Compound_GetVolume E c) in
  if Qgeb volume 0 then DivideByVolume volume else BoxApproximation.

(** The accumulation loop of [CalculateInertia]. *)
Definition inertia_sum (E : Externals) (l : list Child) : btVector3 :=
  fold_left
    (fun inertia ch =>
       let convex := child_convex ch in
       inertia +v GetVolume E convex *s
                  OffsetInertia (GetInertia E convex) (child_origin ch) false)
    l V3.zero.

(** [CPhysCollide_Compound::CalculateInertia]. *)
Definition CalculateInertia (E : Externals) (c : CPhysCollide_Compound)
    : CPhysCollide_Compound :=
  let c := snd (Compound_GetVolume E c) in
  match CalculateInertia_path E c with
  | DivideByVolume volume =>
      set_Inertia c
        (V3.absolute (inertia_sum E (btCompoundShape.children (m_Shape c)) /s volume))
  | BoxApproximation =>
      let '(aabbMin, aabbMax) := btCompoundShape.getAabb E (m_Shape c) in
      set_Inertia c
        (OffsetInertia (BoxInertia (aabbMax -v aabbMin))
                       ((1 # 2) *s (aabbMin +v aabbMax)) true)
  end.

(** The first loop of the constructor, carrying [(m_Volume, m_MassCenter)]. *)
Definition volume_and_center (E : Externals) (pConvex : list CPhysConvex)
    : btScalar * btVector3 :=
  fold_left
    (fun acc convex =>
       let convexVolume := GetVolume E convex in
       (fst acc + convexVolume,
        snd acc +v convexVolume *s (GetOriginInCompound convex +v GetMassCenter E convex)))
    pConvex (0, V3.zero).

(** The bounds gathered when the total volume is not positive. *)
Definition union_of_aabbs (E : Externals) (pConvex : list CPhysConvex) : Aabb :=
  fold_left
    (fun box convex =>
       let '(convexAabbMin, convexAabbMax) := convex_getAabb E convex in
       let convexOrigin := GetOriginInCompound convex in
       (V3.setMin (fst box) (convexAabbMin +v convexOrigin),
        V3.setMax (snd box) (convexAabbMax +v convexOrigin)))
    pConvex btCompoundShape.emptyAabb.

Definition compound_center (E : Externals) (pConvex : list CPhysConvex) : btVector3 :=
  let '(volume, centerSum) := volume_and_center E pConvex in
  if Qgtb volume 0 then centerSum /s volume
  else
    let '(aabbMin, aabbMax) := union_of_aabbs E pConvex in
    (1 # 2) *s (aabbMin +v aabbMax).

(** The ownership step of the constructor's last loop. *)
Definition absorb (convex : CPhysConvex) : CPhysConvex :=
  if Owner_eqb (GetOwner convex) OWNER_GAME then SetOwner convex OWNER_COMPOUND
  else convex.

(** [CPhysCollide_Compound::CPhysCollide_Compound(pConvex, convexCount)]:
    the new compound, and the convexes of the array as the constructor
    leaves them. *)
Definition Compound_new (E : Externals) (pConvex : list CPhysConvex)
    : CPhysCollide_Compound * list CPhysConvex :=
  let volume := fst (volume_and_center E pConvex) in
  let massCenter := compound_center E pConvex in
  let pConvex' := map absorb pConvex in
  let shape :=
    fold_left
      (fun s convex =>
         btCompoundShape.addChildShape E s (GetOriginInCompound convex -v massCenter) convex)
      pConvex' btCompoundShape.empty in
  (CalculateInertia E
     (mkCompound shape volume massCenter V3.zero COLLIDE_OWNER_GAME None),
   pConvex').

(** [CPhysicsCollision::ConvertConvexToCollide]. *)
Definition ConvertConvexToCollide (E : Externals) (pConvex : option (list CPhysConvex))
    : option (CPhysCollide_Compound * list CPhysConvex) :=
  match pConvex with
  | None | Some [] => None
  | Some l => Some (Compound_new E l)
  end.

(** ** Attached bodies *)

(** The bodies attached to a collideable form a circular list threaded
    through [CPhysicsObject::GetNextCollideObject], here [next].  A call
    of [NotifyMassCenterChanged(oldMassCenter)] on body [o] is recorded as
    [(o, oldMassCenter)]. *)
Definition Notification := (nat * btVector3)%type.

(** The [do ... while (object != firstObject)] loop; [None] when the fuel
    runs out before the list closes. *)
Fixpoint notify_loop (fuel : nat) (next : nat -> nat) (firstObject object : nat)
    (oldMassCenter : btVector3) (calls : list Notification)
    : option (list Notification) :=
  match fuel with
  | O => None
  | S fuel' =>
      let calls := calls ++ [(object, oldMassCenter)] in
      let object := next object in
      if (object =? firstObject)%nat then Some calls
      else notify_loop fuel' next firstObject object oldMassCenter calls
  end.

Definition NotifyObjectsOfMassCenterChange (fuel : nat) (next : nat -> nat)
    (c : CPhysCollide_Compound) (oldMassCenter : btVector3)
    : option (list Notification) :=
  match m_ObjectReferenceList c with
  | None => Some []
  | Some firstObject => notify_loop fuel next firstObject firstObject oldMassCenter []
  end.

(** The child loop of [SetMassCenter]. *)
Fixpoint recenter_children (n childIndex : nat) (s : btCompoundShape.t)
    (massCenter : btVector3) : btCompoundShape.t :=
  match n with
  | O => s
  | S n' =>
      let convex := child_convex (nth childIndex (btCompoundShape.children s)
                                      (mkChild (new_box (mkBox V3.zero 0 V3.zero)) V3.zero)) in
      recenter_children n' (S childIndex)
        (btCompoundShape.updateChildTransform s childIndex
           (GetOriginInCompound convex -v massCenter))
        massCenter
  end.

(** [CPhysCollide_Compound::SetMassCenter]: the updated compound and the
    notifications sent, in order. *)
Definition SetMassCenter (E : Externals) (fuel : nat) (next : nat -> nat)
    (c : CPhysCollide_Compound) (massCenter : btVector3)
    : option (CPhysCollide_Compound * list Notification) :=
  let oldMassCenter := m_MassCenter c in
  let childCount := btCompoundShape.getNumChildShapes (m_Shape c) in
  let shape := recenter_children childCount 0 (m_Shape c) massCenter in
  let shape := btCompoundShape.recalculateLocalAabb E shape in
  let c := CalculateInertia E
             (mkCompound shape (m_Volume c) massCenter (m_Inertia c)
                         (collide_Owner c) (m_ObjectReferenceList c)) in
  match NotifyObjectsOfMassCenterChange fuel next c oldMassCenter with
  | Some calls => Some (c, calls)
  | None => None
  end.

(* ================================================================== *)
(** * The bounding box cache *)
(* ================================================================== *)

Record CPhysicsCollision := mkCollision {
  m_BBoxCache : list CPhysCollide_Compound
}.

(** [getChildShape(0)->getUserPointer()] cast to a box.  Only [CreateBBox]
    appends to the cache, so every entry has a box as its first child. *)
Definition cache_box (c : CPhysCollide_Compound) : option CPhysConvex_Box :=
  match btCompoundShape.children (m_Shape c) with
  | ch :: _ =>
      match convex_shape (child_convex ch) with
      | BoxShape b => Some b
      | HullShape _ => None
      end
  | [] => None
  end.

(** How the loop over the three components ends: by [return cacheCompound]
    or by leaving the loop with the current value of [cacheCompound]. *)
Inductive ComponentExit :=
| Returned (p : nat)
| LeftLoop (cacheCompound : option nat).

(** [for (component = 0; component < 3; ++component) { ... }] of
    [CreateBBox], over the remaining [components]. *)
Fixpoint component_loop (components : list nat)
    (cacheHalfExtents halfExtents cacheOrigin origin : btVector3)
    (threshold : btScalar) (cacheCompound : option nat) : ComponentExit :=
  match components with
  | [] => LeftLoop cacheCompound
  | component :: rest =>
      if Qgtb (btFabs (V3.get cacheHalfExtents component - V3.get halfExtents component))
              threshold
         || Qgtb (btFabs (V3.get cacheOrigin component - V3.get origin component))
                 threshold
      then LeftLoop None
      else
        match cacheCompound with
        | Some p => Returned p
        | None =>
            component_loop rest cacheHalfExtents halfExtents cacheOrigin origin
                           threshold cacheCompound
        end
  end.

(** [for (bboxIndex = Count() - 1; bboxIndex >= 0; --bboxIndex)], with
    [n = bboxIndex + 1] entries still to visit. *)
Fixpoint cache_loop (n : nat) (cache : list CPhysCollide_Compound)
    (halfExtents origin : btVector3) (threshold : btScalar) : option nat :=
  match n with
  | O => None
  | S bboxIndex =>
      match nth_error cache bboxIndex with
      | Some cacheCompound =>
          match cache_box cacheCompound with
          | Some cacheBox =>
              match component_loop [0; 1; 2]%nat (box_halfExtents cacheBox) halfExtents
                      (m_Origin cacheBox) origin threshold (Some bboxIndex) with
              | Returned p => Some p
              | LeftLoop _ => cache_loop bboxIndex cache halfExtents origin threshold
              end
          | None => cache_loop bboxIndex cache halfExtents origin threshold
          end
      | None => cache_loop bboxIndex cache halfExtents origin threshold
      end
  end.

(** [CPhysicsCollision::CreateBBox].  The result is the handle of a
    compound, which is its position in [m_BBoxCache]; [None] is [nullptr]. *)
Definition CreateBBox (E : Externals) (st : CPhysicsCollision) (mins maxs : Vector)
    : option nat * CPhysicsCollision :=
  if V3.eqb mins maxs then (None, st)
  else
    let bulletMins := ConvertPositionToBullet E mins in
    let bulletMaxs := ConvertPositionToBullet E maxs in
    let halfExtents := (1 # 2) *s V3.absolute (bulletMaxs -v bulletMins) in
    let origin := (1 # 2) *s (bulletMins +v bulletMaxs) in
    let threshold := HL2BULLET E (1 # 10) in
    match cache_loop (length (m_BBoxCache st)) (m_BBoxCache st)
                     halfExtents origin threshold with
    | Some p => (Some p, st)
    | None =>
        let box := SetOwner (new_box (CPhysConvex_Box_new E halfExtents origin))
                            OWNER_INTERNAL in
        let compound := Collide_SetOwner (fst (Compound_new E [box]))
                                         COLLIDE_OWNER_INTERNAL in
        (Some (length (m_BBoxCache st)), mkCollision (m_BBoxCache st ++ [compound]))
    end.

(** [CPhysicsCollision::BBoxToConvex]: the first child of the compound. *)
Definition BBoxToConvex (E : Externals) (st : CPhysicsCollision) (mins maxs : Vector)
    : option CPhysConvex * CPhysicsCollision :=
  match CreateBBox E st mins maxs with
  | (None, st') => (None, st')
  | (Some p, st') =>
      (match nth_error (m_BBoxCache st') p with
       | Some compound =>
           match btCompoundShape.children (m_Shape compound) with
           | ch :: _ => Some (child_convex ch)
           | [] => None
           end
       | None => None
       end, st')
  end.

(** [CPhysicsCollision::BBoxToCollide]. *)
Definition BBoxToCollide (E : Externals) (st : CPhysicsCollision) (mins maxs : Vector)
    : option nat * CPhysicsCollision :=
  CreateBBox E st mins maxs.

(* ================================================================== *)
(** * VCollide import structures *)
(* ================================================================== *)

Local Open Scope Z_scope.

(** The import buffer: one byte per address. *)
Definition Memory := Z -> Z.

Definition byte_at (mem : Memory) (a : Z) : Z := mem a mod 256.

Definition bytes_at (mem : Memory) (a : Z) (n : nat) : list Z :=
  map (fun i => byte_at mem (a + Z.of_nat i)) (seq 0 n).

Definition mem_of_bytes (l : list Z) : Memory :=
  fun a => if a <? 0 then 0 else nth (Z.to_nat a) l 0.

(** The byte order of the machine that runs the decoder. *)
Inductive ByteOrder := LittleEndian | BigEndian.

Definition le_value (bs : list Z) : Z :=
  fold_right (fun b acc => b + 256 * acc) 0 bs.

(** The unsigned value the machine reads from the bytes of a field. *)
Definition native_value (host : ByteOrder) (bs : list Z) : Z :=
  match host with
  | LittleEndian => le_value bs
  | BigEndian => le_value (rev bs)
  end.

(** [CByteswap], of which only the swapping switch matters here. *)
Record CByteswap := mkByteswap { m_bSwapBytes : bool }.

(** One field of the scratch copy that [SwapBufferToTargetEndian] fills:
    the bytes of the source field, reversed when swapping is on. *)
Definition swapped_field (host : ByteOrder) (byteswap : CByteswap) (mem : Memory)
    (a : Z) (n : nat) : Z :=
  let bs := bytes_at mem a n in
  native_value host (if m_bSwapBytes byteswap then rev bs else bs).

(** A field read in place, through the pointer into the buffer. *)
Definition field_in_place (host : ByteOrder) (mem : Memory) (a : Z) (n : nat) : Z :=
  native_value host (bytes_at mem a n).

(** Two's complement reading of a [w]-bit value. *)
Definition signed (w : Z) (v : Z) : Z :=
  if v <? 2 ^ (w - 1) then v else v - 2 ^ w.

(** A bit-field of [width] bits starting at bit [lo] of its 32-bit unit
    (fields are allocated from the least significant bit). *)
Definition bitfield (lo width : Z) (v : Z) : Z :=
  Z.land (Z.shiftr v lo) (Z.ones width).

(** The rational value of a binary32 pattern.  Infinities and NaNs have
    none and read as zero. *)
Definition float_of_bits (v : Z) : Q :=
  let s := bitfield 31 1 v in
  let e := bitfield 23 8 v in
  let m := bitfield 0 23 v in
  let magnitude : Q :=
    if e =? 0 then (inject_Z m / inject_Z (2 ^ 149))%Q
    else if e =? 255 then 0%Q
    else if e <? 150 then (inject_Z (2 ^ 23 + m) / inject_Z (2 ^ (150 - e)))%Q
    else inject_Z ((2 ^ 23 + m) * 2 ^ (e - 150)) in
  if s =? 1 then (- magnitude)%Q else magnitude.

Record VCollide_IVP_U_Float_Point := mkPoint {
  k0 : Q; k1 : Q; k2 : Q;
  hesse_val : Q
}.

Record VCollide_IVP_Compact_Edge := mkEdge {
  start_point_index : Z;   (* 16 bits *)
  opposite_index : Z;      (* 15 bits, signed *)
  edge_is_virtual : Z      (* 1 bit *)
}.

Record VCollide_IVP_Compact_Triangle := mkTriangle {
  tri_index : Z;           (* 12 bits *)
  pierce_index : Z;        (* 12 bits *)
  material_index : Z;      (* 7 bits *)
  tri_is_virtual : Z;      (* 1 bit *)
  c_three_edges : VCollide_IVP_Compact_Edge * VCollide_IVP_Compact_Edge
                  * VCollide_IVP_Compact_Edge
}.

Record VCollide_IVP_Compact_Ledge := mkLedge {
  c_point_offset : Z;
  client_data : Z;         (* shares its storage with ledgetree_node_offset *)
  has_children_flag : Z;   (* 2 bits *)
  is_compact_flag : Z;     (* 2 bits *)
  ledge_dummy : Z;         (* 4 bits *)
  size_div_16 : Z;         (* 24 bits *)
  n_triangles : Z;         (* short *)
  for_future_use : Z       (* short *)
}.

Definition get_n_points (l : VCollide_IVP_Compact_Ledge) : Z :=
  size_div_16 l - n_triangles l - 1.

Section Decoder.

Variables (host : ByteOrder) (byteswap : CByteswap) (mem : Memory).

Let field := swapped_field host byteswap mem.

(** [SwapBufferToTargetEndian(&swappedLedge, ledge)]: a 16-byte record. *)
Definition swap_ledge (ledge : Z) : VCollide_IVP_Compact_Ledge :=
  let bf := field (ledge + 8) 4%nat in
  {| c_point_offset := signed 32 (field ledge 4%nat);
     client_data := signed 32 (field (ledge + 4) 4%nat);
     has_children_flag := bitfield 0 2 bf;
     is_compact_flag := bitfield 2 2 bf;
     ledge_dummy := bitfield 4 4 bf;
     size_div_16 := bitfield 8 24 bf;
     n_triangles := signed 16 (field (ledge + 12) 2%nat);
     for_future_use := signed 16 (field (ledge + 14) 2%nat) |}.

Definition swap_edge (edge : Z) : VCollide_IVP_Compact_Edge :=
  let bf := field edge 4%nat in
  {| start_point_index := bitfield 0 16 bf;
     opposite_index := signed 15 (bitfield 16 15 bf);
     edge_is_virtual := bitfield 31 1 bf |}.

(** A 16-byte record: the packed header and three edges. *)
Definition swap_triangle (triangle : Z) : VCollide_IVP_Compact_Triangle :=
  let bf := field triangle 4%nat in
  {| tri_index := bitfield 0 12 bf;
     pierce_index := bitfield 12 12 bf;
     material_index := bitfield 24 7 bf;
     tri_is_virtual := bitfield 31 1 bf;
     c_three_edges := (swap_edge (triangle + 4), swap_edge (triangle + 8),
                       swap_edge (triangle + 12)) |}.

(** A 16-byte record of four floats. *)
Definition swap_point (point : Z) : VCollide_IVP_U_Float_Point :=
  {| k0 := float_of_bits (field point 4%nat);
     k1 := float_of_bits (field (point + 4) 4%nat);
     k2 := float_of_bits (field (point + 8) 4%nat);
     hesse_val := float_of_bits (field (point + 12) 4%nat) |}.

(** [m_TriangleMaterials[triangleIndex] = material]. *)
Fixpoint set_material (l : list Z) (triangleIndex : nat) (material : Z) : list Z :=
  match l, triangleIndex with
  | [], _ => []
  | _ :: rest, O => material :: rest
  | x :: rest, S i => x :: set_material rest i material
  end.

(** One round of the triangle loop of the ledge constructor, on
    [(m_TriangleIndices, m_TriangleMaterials)]. *)
Definition ledge_triangle_step (triangles : Z) (triangleCount : nat)
    (acc : list nat * list Z) (triangleIndex : nat) : list nat * list Z :=
  let swappedTriangle := swap_triangle (triangles + 16 * Z.of_nat triangleIndex) in
  let '(e0, e1, e2) := c_three_edges swappedTriangle in
  let indices := fst acc ++ [Z.to_nat (start_point_index e0);
                             Z.to_nat (start_point_index e1);
                             Z.to_nat (start_point_index e2)] in
  if 0 <? material_index swappedTriangle then
    let materials :=
      match snd acc with
      | [] => repeat 0 triangleCount
      | _ :: _ => snd acc
      end in
    (indices, set_material materials triangleIndex (material_index swappedTriangle))
  else (indices, snd acc).

(** [CPhysConvex_Hull::CPhysConvex_Hull(ledge, byteswap, ledgePoints,
    ledgePointCount)]. *)
Definition CPhysConvex_Hull_of_ledge (E : Externals) (ledge : Z)
    (ledgePoints : list btVector3) : CPhysConvex_Hull :=
  let userIndex := signed 32 (field_in_place host mem (ledge + 4) 4%nat) in
  let swappedLedge := swap_ledge ledge in
  let triangles := ledge + 16 in
  let triangleCount := Z.to_nat (n_triangles swappedLedge) in
  let '(indices, materials) :=
    fold_left (ledge_triangle_step triangles triangleCount)
              (seq 0 triangleCount) ([], []) in
  let h := mkHull ledgePoints (VPHYSICS_CONVEX_DISTANCE_MARGIN E) userIndex
                  indices [] materials (- (1))%Q V3.zero V3.zero in
  match materials with
  | [] => h
  | _ :: _ => CalculateTrianglePlanes E h
  end.

(** The point of index [pointIndex], converted as the point loop does. *)
Definition ledge_point (ivpPoints : Z) (pointIndex : nat) : btVector3 :=
  let swappedPoint := swap_point (ivpPoints + 16 * Z.of_nat pointIndex) in
  mkV (k0 swappedPoint) (- k1 swappedPoint)%Q (- k2 swappedPoint)%Q.

(** [CPhysConvex_Hull::CreateFromIVPCompactLedge]; [None] is [nullptr]. *)
Definition CreateFromIVPCompactLedge (E : Externals) (ledge : Z)
    : option CPhysConvex_Hull :=
  let swappedLedge := swap_ledge ledge in
  let ivpPoints := ledge + c_point_offset swappedLedge in
  let pointCount := get_n_points swappedLedge in
  if (pointCount <? 3) || (n_triangles swappedLedge <=? 0) then None
  else
    let points := map (ledge_point ivpPoints) (seq 0 (Z.to_nat pointCount)) in
    Some (CPhysConvex_Hull_of_ledge E ledge points).

End Decoder.

(** What the importer hands on as geometry. *)
Definition geometry (h : CPhysConvex_Hull) : list btVector3 * list nat * list Z :=
  (hull_points h, m_TriangleIndices h, m_TriangleMaterials h).

Local Close Scope Z_scope.

(* ================================================================== *)
(** * Lifecycle of a convex and of the cache *)
(* ================================================================== *)

(** What can happen to a convex the game holds a pointer to: it is handed
    to [ConvexFree], or it is one element (after [before], ahead of
    [after]) of an array handed to the compound constructor. *)
Inductive ConvexEvent :=
| EvConvexFree
| EvCompound (E : Externals) (before after : list CPhysConvex).

Definition convex_step (ev : ConvexEvent) (c : CPhysConvex) : option CPhysConvex :=
  match ev with
  | EvConvexFree => ConvexFree c
  | EvCompound E before after =>
      nth_error (snd (Compound_new E (before ++ c :: after))) (length before)
  end.

Fixpoint convex_run (evs : list ConvexEvent) (c : CPhysConvex) : option CPhysConvex :=
  match evs with
  | [] => Some c
  | ev :: rest =>
      match convex_step ev c with
      | Some c' => convex_run rest c'
      | None => None
      end
  end.

(** The caches a [CPhysicsCollision] can hold: empty at first, then grown
    by [CreateBBox] only. *)
Inductive cache_reachable (E : Externals) : CPhysicsCollision -> Prop :=
| cache_initial : cache_reachable E (mkCollision [])
| cache_request st mins maxs :
    cache_reachable E st ->
    cache_reachable E (snd (CreateBBox E st mins maxs)).

(** Every entry of the cache has, as its first child, an internally owned
    convex. *)
Definition cache_entry_internal (c : CPhysCollide_Compound) : Prop :=
  exists ch rest,
    btCompoundShape.children (m_Shape c) = ch :: rest /\
    GetOwner (child_convex ch) = OWNER_INTERNAL.

(* ================================================================== *)
(** * Notions the properties are stated with *)
(* ================================================================== *)

(** ** Sums over every triangle of a hull *)

(** The index at which each triangle of the hull starts. *)
Definition triangle_starts (indices : list nat) : list nat :=
  map (fun t => (3 * t)%nat) (seq 0 (length indices / 3)).

(** The sum over every triangle of the absolute triple product against
    the reference point. *)
Definition sixVolume_all (points : list btVector3) (indices : list nat) : btScalar :=
  fold_left (fun sum i => sum + tetrahedronSixVolume points indices i)
            (triangle_starts indices) 0.

(** The sum over every triangle of
    [0.25 * tetrahedronSixVolume * (p0 + p1 + p2 + ref)]. *)
Definition centerSum_all (points : list btVector3) (indices : list nat) : btVector3 :=
  fold_left (fun sum i => sum +v tetrahedronCenterTerm points indices i)
            (triangle_starts indices) V3.zero.

(** One round of the first loop of [CalculateVolumeProperties]. *)
Definition volume_step (points : list btVector3) (indices : list nat)
    (acc : btScalar * btVector3) (indexIndex : nat) : btScalar * btVector3 :=
  (fst acc + tetrahedronSixVolume points indices indexIndex,
   snd acc +v tetrahedronCenterTerm points indices indexIndex).

(** ** The documented material lookup *)

(** The material lookup as the documentation words it: the material of
    the triangle whose plane is nearest to the point, over all triangles
    (the first one among equally near planes). *)
Fixpoint nearest_plane (planes : list (btVector3 * btScalar)) (point : btVector3)
    (triangleIndex : nat) (closest : nat * btScalar) : nat * btScalar :=
  match planes with
  | [] => closest
  | plane :: rest =>
      let distance := plane_distance plane point in
      nearest_plane rest point (S triangleIndex)
        (if Qltb distance (snd closest) then (triangleIndex, distance) else closest)
  end.

Definition nearest_plane_material (h : CPhysConvex_Hull) (point : btVector3) : Z :=
  match m_TrianglePlanes h with
  | [] => 0%Z
  | plane :: rest =>
      nth (fst (nearest_plane rest point 1 (O, plane_distance plane point)))
          (m_TriangleMaterials h) 0%Z
  end.

(** ** The documented cache match *)





(** ** Byte order of a buffer *)

(** The [n] bytes at [a] are stored in opposite orders in the two buffers. *)
Definition reversed_field (native foreign : Memory) (a : Z) (n : nat) : Prop :=
  bytes_at foreign a n = rev (bytes_at native a n).

(** [foreign] holds, at [ledge], the same ledge as [native] with every
    field of the header, of each triangle record and of each point record
    in the opposite byte order. *)
Definition foreign_image (host : ByteOrder) (native foreign : Memory) (ledge : Z) : Prop :=
  let L := swap_ledge host (mkByteswap false) native ledge in
  reversed_field native foreign ledge 4 /\
  reversed_field native foreign (ledge + 4) 4 /\
  reversed_field native foreign (ledge + 8) 4 /\
  reversed_field native foreign (ledge + 12) 2 /\
  reversed_field native foreign (ledge + 14) 2 /\
  (forall t w : Z, (0 <= t < n_triangles L)%Z -> (0 <= w < 4)%Z ->
     reversed_field native foreign (ledge + 16 + 16 * t + 4 * w) 4) /\
  (forall p w : Z, (0 <= p < get_n_points L)%Z -> (0 <= w < 4)%Z ->
     reversed_field native foreign (ledge + c_point_offset L + 16 * p + 4 * w) 4).

(** ** The list of attached bodies *)

(** [next] leads from each body of [l] to the one after it, and from the
    last one to [back]. *)
Fixpoint linked (next : nat -> nat) (l : list nat) (back : nat) : Prop :=
  match l with
  | [] => True
  | o :: rest =>
      match rest with
      | [] => next o = back
      | o' :: _ => next o = o' /\ linked next rest back
      end
  end.

(** The bodies [l], each listed once, form the circular list that starts
    at the head of [l]. *)
Definition circular (next : nat -> nat) (l : list nat) : Prop :=
  match l with
  | [] => False
  | first :: _ => linked next l first /\ NoDup l
  end.

(** [bodies] are the bodies attached to [c], in the order of its list: none
    when the list pointer is null, else the circular list from its head. *)
Definition attached_bodies (next : nat -> nat) (c : CPhysCollide_Compound)
    (bodies : list nat) : Prop :=
  match bodies with
  | [] => m_ObjectReferenceList c = None
  | first :: _ => m_ObjectReferenceList c = Some first /\ circular next bodies
  end.

(** A child moved to where the mass centre [massCenter] puts it. *)
Definition recenter (massCenter : btVector3) (ch : Child) : Child :=
  mkChild (child_convex ch) (GetOriginInCompound (child_convex ch) -v massCenter).

(** ** Parallel axes *)

(** The parallel-axis correction for the offset [d]:
    [(d.d, d.d, d.d) - (d.x^2, d.y^2, d.z^2)]. *)
Definition parallel_axis_correction (d : btVector3) : btVector3 :=
  V3.splat (V3.length2 d) -v d *v d.

(** Two unit cubes (half extents 1/2) centred at [d] and at [-d]. *)
Definition unit_box (origin : btVector3) : CPhysConvex :=
  new_box (mkBox (mkV (1 # 2) (1 # 2) (1 # 2)) 0 origin).

Definition two_boxes (d : btVector3) : list CPhysConvex :=
  [unit_box d; unit_box (V3.neg d)].

(* ================================================================== *)
(** * Sample collaborators and inputs *)
(* ================================================================== *)

(** An instance of the collaborators, to run the code on concrete input:
    a uniform scale with the axis change of the host for the units, boxes
    that store the half extents they are built from, bounds that are the
    extreme coordinates widened by the margin.  No square roots exist in
    the rationals, so [normalize] is only exact on unit vectors. *)
Definition sample_HL2BULLET (x : Q) : btScalar := x * (254 # 10000).

Definition sample_hull_aabb (points : list btVector3) (margin : btScalar) : Aabb :=
  match points with
  | [] => (V3.zero, V3.zero)
  | p :: rest =>
      let '(mn, mx) :=
        fold_left (fun box q => (V3.setMin (fst box) q, V3.setMax (snd box) q))
                  rest (p, p) in
      (mn -v V3.splat margin, mx +v V3.splat margin)
  end.

Definition sample_externals : Externals :=
  {| HL2BULLET := sample_HL2BULLET;
     ConvertPositionToBullet := fun v =>
       mkV (sample_HL2BULLET (getX v)) (sample_HL2BULLET (getZ v))
           (- sample_HL2BULLET (getY v));
     btBoxShape_dimensions := fun halfExtents _ => halfExtents;
     btBoxShape_getAabb := fun halfExtents margin =>
       (V3.neg (halfExtents +v V3.splat margin), halfExtents +v V3.splat margin);
     btConvexHullShape_getAabb := sample_hull_aabb;
     btCompoundShape_getAabb := fun box => box;
     btVector3_normalize := fun v => v |}.

(** The unit tetrahedron at the origin, its first query still to come. *)
Definition tetrahedron_hull : CPhysConvex_Hull :=
  CPhysConvex_Hull_new sample_externals
    [mkV 0 0 0; mkV 1 0 0; mkV 0 1 0; mkV 0 0 1]
    [0; 2; 1;  0; 1; 3;  0; 3; 2;  1; 2; 3]%nat 4.

(** Three points on a line, two triangles over them: a hull without
    volume, and the compound the game makes of it. *)
Definition collinear_hull (E : Externals) : CPhysConvex_Hull :=
  CPhysConvex_Hull_new E
    [mkV 0 0 0; mkV 1 0 0; mkV 2 0 0]
    [0; 1; 2;  0; 2; 1]%nat 2.

Definition collinear_compound (E : Externals) : CPhysCollide_Compound :=
  fst (Compound_new E [new_hull (collinear_hull E)]).

(** A ledge in the byte order of a little-endian machine, at address 0:
    two triangles with the materials 1 and 2 over the stored points
    [(0, 0, 0)], [(0, -1, 0)], [(0, 0, -1)], [(1, 0, 0)], the first on the
    points 0, 1, 2 and the second on the points 3, 1, 2.  The planes the
    decoder derives for them are [x = 0] and [x = 1]; their normals come
    out with length one, so the sample [normalize] is exact on them. *)
Definition material_ledge : Memory := mem_of_bytes
  [48; 0; 0; 0; 0; 0; 0; 0; 0; 7; 0; 0; 2; 0; 0; 0;
   0; 0; 0; 1; 0; 0; 0; 0; 1; 0; 0; 0; 2; 0; 0; 0;
   0; 0; 0; 2; 3; 0; 0; 0; 1; 0; 0; 0; 2; 0; 0; 0;
   0; 0; 0; 0; 0; 0; 0; 0; 0; 0; 0; 0; 0; 0; 0; 0;
   0; 0; 0; 0; 0; 0; 128; 191; 0; 0; 0; 0; 0; 0; 0; 0;
   0; 0; 0; 0; 0; 0; 0; 0; 0; 0; 128; 191; 0; 0; 0; 0;
   0; 0; 128; 63; 0; 0; 0; 0; 0; 0; 0; 0; 0; 0; 0; 0]%Z.

(** A ledge of one triangle with material 3 over the points
    [(1, 2, 0)], [(0, 1, -1/2)], [(0, 0, 1)], with [client_data = 1], laid
    out at address 0: the 16-byte header, the triangle, then the points.
    [native_ledge] is the buffer in the byte order of a little-endian
    machine, [foreign_ledge] the same records with the bytes of every
    field reversed. *)
Definition native_ledge : Memory := mem_of_bytes
  [32; 0; 0; 0; 1; 0; 0; 0; 0; 5; 0; 0; 1; 0; 0; 0;
   0; 0; 0; 3; 0; 0; 0; 0; 1; 0; 0; 0; 2; 0; 0; 0;
   0; 0; 128; 63; 0; 0; 0; 64; 0; 0; 0; 0; 0; 0; 0; 0;
   0; 0; 0; 0; 0; 0; 128; 63; 0; 0; 0; 191; 0; 0; 0; 0;
   0; 0; 0; 0; 0; 0; 0; 0; 0; 0; 128; 63; 0; 0; 0; 0]%Z.

Definition foreign_ledge : Memory := mem_of_bytes
  [0; 0; 0; 32; 0; 0; 0; 1; 0; 0; 5; 0; 0; 1; 0; 0;
   3; 0; 0; 0; 0; 0; 0; 0; 0; 0; 0; 1; 0; 0; 0; 2;
   63; 128; 0; 0; 64; 0; 0; 0; 0; 0; 0; 0; 0; 0; 0; 0;
   0; 0; 0; 0; 63; 128; 0; 0; 191; 0; 0; 0; 0; 0; 0; 0;
   0; 0; 0; 0; 0; 0; 0; 0; 63; 128; 0; 0; 0; 0; 0; 0]%Z.

(** Two requests to the cache: a cube of side 20, then a slab that shares
    the cube's extent along the first axis only. *)
Definition cube_mins : Vector := mkV (- (10)) (- (10)) (- (10)).
Definition cube_maxs : Vector := mkV 10 10 10.

Definition cache_with_cube : CPhysicsCollision :=
  snd (CreateBBox sample_externals (mkCollision []) cube_mins cube_maxs).

(** The compound of two such cubes with the bodies 7 and 9 attached, 7
    being the head of the list. *)
Definition attached_compound : CPhysCollide_Compound :=
  let c := fst (Compound_new sample_externals (two_boxes (mkV 1 2 3))) in
  mkCompound (m_Shape c) (m_Volume c) (m_MassCenter c) (m_Inertia c)
             (collide_Owner c) (Some 7%nat).

Definition attached_next (o : nat) : nat :=
  if (o =? 7)%nat then 9%nat else 7%nat.

(* ================================================================== *)
(** * Further notions and inputs *)
(* ================================================================== *)

(** ** Hulls *)

(** The hull moved by the vector [t], before its first query. *)
Definition translate_hull (t : btVector3) (h : CPhysConvex_Hull) : CPhysConvex_Hull :=
  mkHull (map (fun p => p +v t) (hull_points h)) (hull_margin h) (hull_userIndex h)
         (m_TriangleIndices h) (m_TrianglePlanes h) (m_TriangleMaterials h)
         (hull_Volume h) (hull_MassCenter h) (hull_Inertia h).

(** Every index of the hull names one of its points. *)
Definition indices_in_range (h : CPhysConvex_Hull) : Prop :=
  Forall (fun i => (i < length (hull_points h))%nat) (m_TriangleIndices h).

(** The four faces of a tetrahedron over the points 0 to 3. *)
Definition tetrahedron_faces : list nat :=
  [0; 1; 2;  0; 1; 3;  0; 2; 3;  1; 2; 3]%nat.

Definition tetrahedron_on (E : Externals) (a b c d : btVector3) : CPhysConvex_Hull :=
  CPhysConvex_Hull_new E [a; b; c; d] tetrahedron_faces 4.

(** ** Decoded ledges *)

(** The point indices and the material of triangle [t] of a ledge. *)
Definition triangle_corners (host : ByteOrder) (byteswap : CByteswap) (mem : Memory)
    (ledge : Z) (t : nat) : list nat :=
  let '(e0, e1, e2) :=
    c_three_edges (swap_triangle host byteswap mem (ledge + 16 + 16 * Z.of_nat t)%Z) in
  [Z.to_nat (start_point_index e0); Z.to_nat (start_point_index e1);
   Z.to_nat (start_point_index e2)].

Definition triangle_material (host : ByteOrder) (byteswap : CByteswap) (mem : Memory)
    (ledge : Z) (t : nat) : Z :=
  material_index (swap_triangle host byteswap mem (ledge + 16 + 16 * Z.of_nat t)%Z).

(** ** Ledge trees *)

(** The fields of a ledgetree node that its data description lists; the
    record takes 28 bytes. *)
Record VCollide_IVP_Compact_Ledgetree_Node := mkNode {
  offset_right_node : Z;
  offset_compact_ledge : Z;
  node_center : Q * Q * Q;
  node_radius : Q
}.

(** [SwapBufferToTargetEndian(&swappedNode, node)]. *)
Definition swap_ledgetree_node (host : ByteOrder) (byteswap : CByteswap) (mem : Memory)
    (node : Z) : VCollide_IVP_Compact_Ledgetree_Node :=
  let field := swapped_field host byteswap mem in
  {| offset_right_node := signed 32 (field node 4%nat);
     offset_compact_ledge := signed 32 (field (node + 4)%Z 4%nat);
     node_center := (float_of_bits (field (node + 8)%Z 4%nat),
                     float_of_bits (field (node + 12)%Z 4%nat),
                     float_of_bits (field (node + 16)%Z 4%nat));
     node_radius := float_of_bits (field (node + 20)%Z 4%nat) |}.

(** How a run of the tree decoder ends: with its result, by calling a
    method through a null pointer, or, in the model only, by lack of fuel. *)
Inductive Decoded (A : Type) :=
| Done (a : A)
| NullDereference
| OutOfFuel.

Arguments NullDereference {A}.
Arguments OutOfFuel {A}.

(** The leaf case of [AddIVPCompactLedgetreeNode] once the hull exists:
    the hull is tagged [OWNER_COMPOUND] and added as a child. *)
Definition add_ledge_child (E : Externals) (c : CPhysCollide_Compound)
    (hull : CPhysConvex_Hull) : CPhysCollide_Compound :=
  let convex := SetOwner (new_hull hull) OWNER_COMPOUND in
  mkCompound
    (btCompoundShape.addChildShape E (m_Shape c)
       (GetOriginInCompound convex -v m_MassCenter c) convex)
    (m_Volume c) (m_MassCenter c) (m_Inertia c) (collide_Owner c)
    (m_ObjectReferenceList c).

(** [CPhysCollide_Compound::AddIVPCompactLedgetreeNode].  The result of
    [CreateFromIVPCompactLedge] is used without a check. *)
Fixpoint AddIVPCompactLedgetreeNode (fuel : nat) (host : ByteOrder)
    (byteswap : CByteswap) (mem : Memory) (E : Externals)
    (c : CPhysCollide_Compound) (node : Z) : Decoded CPhysCollide_Compound :=
  match fuel with
  | O => OutOfFuel
  | S fuel' =>
      let swappedNode := swap_ledgetree_node host byteswap mem node in
      if (offset_right_node swappedNode =? 0)%Z then
        match CreateFromIVPCompactLedge host byteswap mem E
                (node + offset_compact_ledge swappedNode)%Z with
        | Some convex => Done (add_ledge_child E c convex)
        | None => NullDereference
        end
      else
        match AddIVPCompactLedgetreeNode fuel' host byteswap mem E c (node + 28)%Z with
        | Done c' =>
            AddIVPCompactLedgetreeNode fuel' host byteswap mem E c'
              (node + offset_right_node swappedNode)%Z
        | NullDereference => NullDereference
        | OutOfFuel => OutOfFuel
        end
  end.

(** [CPhysCollide_Compound::CPhysCollide_Compound(root, byteswap,
    massCenter, inertia)]: the volume starts as the sentinel -1. *)
Definition Compound_of_ledgetree (fuel : nat) (host : ByteOrder) (byteswap : CByteswap)
    (mem : Memory) (E : Externals) (root : Z) (massCenter inertia : btVector3)
    : Decoded CPhysCollide_Compound :=
  AddIVPCompactLedgetreeNode fuel host byteswap mem E
    (mkCompound btCompoundShape.empty (- (1)) massCenter inertia COLLIDE_OWNER_GAME None)
    root.

(** The shape of a ledge tree: leaves name the address of their ledge. *)
Inductive LedgeTree :=
| TreeLeaf (ledge : Z)
| TreeNode (left right : LedgeTree).

Fixpoint tree_leaves (t : LedgeTree) : list Z :=
  match t with
  | TreeLeaf ledge => [ledge]
  | TreeNode l r => tree_leaves l ++ tree_leaves r
  end.

Fixpoint tree_depth (t : LedgeTree) : nat :=
  match t with
  | TreeLeaf _ => O
  | TreeNode l r => S (Nat.max (tree_depth l) (tree_depth r))
  end.

(** The buffer holds the tree [t] at [node]: a node with a right offset of
    zero is a leaf, any other node has its left child right behind it and
    its right child at the offset. *)
Fixpoint laid_out (host : ByteOrder) (byteswap : CByteswap) (mem : Memory)
    (node : Z) (t : LedgeTree) : Prop :=
  let swappedNode := swap_ledgetree_node host byteswap mem node in
  match t with
  | TreeLeaf ledge =>
      offset_right_node swappedNode = 0%Z /\
      ledge = (node + offset_compact_ledge swappedNode)%Z
  | TreeNode l r =>
      offset_right_node swappedNode <> 0%Z /\
      laid_out host byteswap mem (node + 28)%Z l /\
      laid_out host byteswap mem (node + offset_right_node swappedNode)%Z r
  end.

(** The ledges at the given addresses added one after the other, up to
    the first one that yields no hull. *)
Fixpoint add_ledges (host : ByteOrder) (byteswap : CByteswap) (mem : Memory)
    (E : Externals) (c : CPhysCollide_Compound) (ledges : list Z)
    : Decoded CPhysCollide_Compound :=
  match ledges with
  | [] => Done c
  | ledge :: rest =>
      match CreateFromIVPCompactLedge host byteswap mem E ledge with
      | Some convex => add_ledges host byteswap mem E (add_ledge_child E c convex) rest
      | None => NullDereference
      end
  end.

(** A child made of a decoded hull, as it sits in a compound with the
    mass centre [massCenter]. *)
Definition ledge_child (massCenter : btVector3) (hull : CPhysConvex_Hull) : Child :=
  mkChild (mkConvex OWNER_COMPOUND (HullShape hull)) (V3.zero -v massCenter).

(** A buffer in the byte order of a little-endian machine: a root node at
    0 with two leaves, at 28 and 56, whose ledges lie at 84 and 164. *)
Definition tree_buffer : Memory := mem_of_bytes
  [56; 0; 0; 0; 0; 0; 0; 0; 0; 0; 0; 0; 0; 0; 0; 0;
   0; 0; 0; 0; 0; 0; 0; 0; 0; 0; 0; 0; 0; 0; 0; 0;
   56; 0; 0; 0; 0; 0; 0; 0; 0; 0; 0; 0; 0; 0; 0; 0;
   0; 0; 0; 0; 0; 0; 0; 0; 0; 0; 0; 0; 108; 0; 0; 0;
   0; 0; 0; 0; 0; 0; 0; 0; 0; 0; 0; 0; 0; 0; 0; 0;
   0; 0; 0; 0; 32; 0; 0; 0; 1; 0; 0; 0; 0; 5; 0; 0;
   1; 0; 0; 0; 0; 0; 0; 3; 0; 0; 0; 0; 1; 0; 0; 0;
   2; 0; 0; 0; 0; 0; 128; 63; 0; 0; 0; 64; 0; 0; 0; 0;
   0; 0; 0; 0; 0; 0; 0; 0; 0; 0; 128; 63; 0; 0; 0; 191;
   0; 0; 0; 0; 0; 0; 0; 0; 0; 0; 0; 0; 0; 0; 128; 63;
   0; 0; 0; 0; 32; 0; 0; 0; 1; 0; 0; 0; 0; 5; 0; 0;
   1; 0; 0; 0; 0; 0; 0; 0; 0; 0; 0; 0; 1; 0; 0; 0;
   2; 0; 0; 0; 0; 0; 0; 0; 0; 0; 0; 0; 0; 0; 0; 0;
   0; 0; 0; 0; 0; 0; 128; 63; 0; 0; 0; 0; 0; 0; 0; 0;
   0; 0; 0; 0; 0; 0; 0; 0; 0; 0; 128; 63; 0; 0; 0; 0;
   0; 0; 0; 0]%Z.

Definition sample_tree : LedgeTree := TreeNode (TreeLeaf 84) (TreeLeaf 164).

(** A buffer with a single leaf at 0 whose ledge, at 28, has no triangle
    and no point. *)
Definition empty_leaf_buffer : Memory := mem_of_bytes
  [0; 0; 0; 0; 28; 0; 0; 0; 0; 0; 0; 0; 0; 0; 0; 0;
   0; 0; 0; 0; 0; 0; 0; 0; 0; 0; 0; 0; 16; 0; 0; 0;
   0; 0; 0; 0; 0; 1; 0; 0; 0; 0; 0; 0]%Z.

(** ** Compounds *)

(** The sum [GetVolume] of a compound forms when its volume is not cached. *)
Definition children_volume (E : Externals) (c : CPhysCollide_Compound) : btScalar :=
  fold_left (fun volume ch => volume + GetVolume E (child_convex ch))
            (btCompoundShape.children (m_Shape c)) 0.

(** No box among the children has a negative volume. *)
Definition boxes_nonnegative (c : CPhysCollide_Compound) : Prop :=
  forall ch b,
    In ch (btCompoundShape.children (m_Shape c)) ->
    convex_shape (child_convex ch) = BoxShape b ->
    0 <= Box_GetVolume b.

(** [CPhysCollide::AddObjectReference]: the previous head of the list and
    the collideable with [object] as the head. *)
Definition AddObjectReference (c : CPhysCollide_Compound) (object : nat)
    : option nat * CPhysCollide_Compound :=
  (m_ObjectReferenceList c,
   mkCompound (m_Shape c) (m_Volume c) (m_MassCenter c) (m_Inertia c)
              (collide_Owner c) (Some object)).

(** [CPhysCollide::RemoveObjectReference]. *)
Definition RemoveObjectReference (next : nat -> nat) (c : CPhysCollide_Compound)
    (object : nat) : CPhysCollide_Compound :=
  match m_ObjectReferenceList c with
  | Some head =>
      if (head =? object)%nat then
        let head' := next object in
        mkCompound (m_Shape c) (m_Volume c) (m_MassCenter c) (m_Inertia c)
                   (collide_Owner c)
                   (if (head' =? object)%nat then None else Some head')
      else c
  | None => c
  end.

(** [CPhysicsEnvironment::IsCollisionModelUsed]. *)
Definition IsCollisionModelUsed (pCollide : CPhysCollide_Compound) : bool :=
  match m_ObjectReferenceList pCollide with
  | Some _ => true
  | None => false
  end.

(** The sum of the children's volumes, the volume a compound settles on
    when [volume] is what it holds, and the inertia [CalculateInertia]
    then stores. *)
Definition shape_volume (E : Externals) (shape : btCompoundShape.t) : btScalar :=
  fold_left (fun volume ch => volume + GetVolume E (child_convex ch))
            (btCompoundShape.children shape) 0.

Definition settled_volume (E : Externals) (shape : btCompoundShape.t)
    (volume : btScalar) : btScalar :=
  if Qltb volume 0 then shape_volume E shape else volume.

Definition settled_inertia (E : Externals) (shape : btCompoundShape.t)
    (volume : btScalar) : btVector3 :=
  let volume := settled_volume E shape volume in
  if Qgeb volume 0 then
    V3.absolute (inertia_sum E (btCompoundShape.children shape) /s volume)
  else
    let '(aabbMin, aabbMax) := btCompoundShape.getAabb E shape in
    OffsetInertia (BoxInertia (aabbMax -v aabbMin)) ((1 # 2) *s (aabbMin +v aabbMax)) true.

(* ================================================================== *)
(** * The environment (physics_environment.cpp) *)
(* ================================================================== *)

(** The [MIN] and [MAX] macros. *)
Definition MIN (a b : Q) : Q := if Qltb a b then a else b.

(** The cast of a scalar to [int]: truncation towards zero. *)
Definition int_of_scalar (x : btScalar) : Z := Z.quot (Qnum x) (Z.pos (Qden x)).

(** The fields of [CPhysicsEnvironment] that its clock and its delete
    queue use.  Objects are handles.  Three lists keep what the
    environment does to them or asks of Bullet: the objects deleted so
    far, the objects given [CALLBACK_MARKED_FOR_DELETE], and how often
    [stepSimulation] was called. *)
Record CPhysicsEnvironment := mkEnv {
  m_QueueDeleteObject : bool;
  m_InSimulation : bool;
  m_SimulationTimeStep : btScalar;
  m_SimulationInvTimeStep : btScalar;
  m_LastPSITime : btScalar;
  m_TimeSinceLastPSI : btScalar;
  m_Objects : list nat;
  m_DeadObjects : list nat;
  env_deleted : list nat;
  env_marked : list nat;
  env_steps : nat
}.

(** [CUtlVector::Find]. *)
Fixpoint utl_Find (l : list nat) (src : nat) : option nat :=
  match l with
  | [] => None
  | x :: rest =>
      if (x =? src)%nat then Some O
      else match utl_Find rest src with
           | Some i => Some (S i)
           | None => None
           end
  end.

(** [CUtlVector::FastRemove]: the last element takes the place of the
    removed one. *)
Definition utl_FastRemove (l : list nat) (elem : nat) : list nat :=
  match rev l with
  | [] => []
  | last :: front =>
      if (elem =? length front)%nat then rev front
      else firstn elem (rev front) ++ last :: skipn (S elem) (rev front)
  end.

(** [CUtlVector::FindAndFastRemove]. *)
Definition utl_FindAndFastRemove (l : list nat) (src : nat) : list nat :=
  match utl_Find l src with
  | Some elem => utl_FastRemove l elem
  | None => l
  end.

(** [CPhysicsEnvironment::AddObject], on the list of all objects. *)
Definition AddObject (env : CPhysicsEnvironment) (object : nat) : CPhysicsEnvironment :=
  mkEnv (m_QueueDeleteObject env) (m_InSimulation env)
        (m_SimulationTimeStep env) (m_SimulationInvTimeStep env)
        (m_LastPSITime env) (m_TimeSinceLastPSI env)
        (m_Objects env ++ [object]) (m_DeadObjects env)
        (env_deleted env) (env_marked env) (env_steps env).

(** [CPhysicsEnvironment::CleanupDeleteList]. *)
Definition CleanupDeleteList (env : CPhysicsEnvironment) : CPhysicsEnvironment :=
  mkEnv (m_QueueDeleteObject env) (m_InSimulation env)
        (m_SimulationTimeStep env) (m_SimulationInvTimeStep env)
        (m_LastPSITime env) (m_TimeSinceLastPSI env)
        (m_Objects env) []
        (env_deleted env ++ m_DeadObjects env) (env_marked env) (env_steps env).

(** [CPhysicsEnvironment::EnableDeleteQueue]. *)
Definition EnableDeleteQueue (env : CPhysicsEnvironment) (enable : bool)
    : CPhysicsEnvironment :=
  mkEnv enable (m_InSimulation env)
        (m_SimulationTimeStep env) (m_SimulationInvTimeStep env)
        (m_LastPSITime env) (m_TimeSinceLastPSI env)
        (m_Objects env) (m_DeadObjects env)
        (env_deleted env) (env_marked env) (env_steps env).

(** [CPhysicsEnvironment::DestroyObject]; [None] is the null pointer. *)
Definition DestroyObject (env : CPhysicsEnvironment) (pObject : option nat)
    : CPhysicsEnvironment :=
  match pObject with
  | None => env
  | Some object =>
      let objects := utl_FindAndFastRemove (m_Objects env) object in
      if m_InSimulation env || m_QueueDeleteObject env then
        mkEnv (m_QueueDeleteObject env) (m_InSimulation env)
              (m_SimulationTimeStep env) (m_SimulationInvTimeStep env)
              (m_LastPSITime env) (m_TimeSinceLastPSI env)
              objects (m_DeadObjects env ++ [object])
              (env_deleted env) (env_marked env ++ [object]) (env_steps env)
      else
        mkEnv (m_QueueDeleteObject env) (m_InSimulation env)
              (m_SimulationTimeStep env) (m_SimulationInvTimeStep env)
              (m_LastPSITime env) (m_TimeSinceLastPSI env)
              objects (m_DeadObjects env)
              (env_deleted env ++ [object]) (env_marked env) (env_steps env)
  end.

(** What [PreTickCallback] and [TickCallback] do to these fields. *)
Definition PreTickCallback (env : CPhysicsEnvironment) : CPhysicsEnvironment :=
  let env := if m_QueueDeleteObject env then env else CleanupDeleteList env in
  mkEnv (m_QueueDeleteObject env) true
        (m_SimulationTimeStep env) (m_SimulationInvTimeStep env)
        (m_LastPSITime env) (m_TimeSinceLastPSI env)
        (m_Objects env) (m_DeadObjects env)
        (env_deleted env) (env_marked env) (env_steps env).

Definition TickCallback (env : CPhysicsEnvironment) : CPhysicsEnvironment :=
  mkEnv (m_QueueDeleteObject env) false
        (m_SimulationTimeStep env) (m_SimulationInvTimeStep env)
        (m_LastPSITime env) (m_TimeSinceLastPSI env)
        (m_Objects env) (m_DeadObjects env)
        (env_deleted env) (env_marked env) (env_steps env).

(** One call of Bullet's [stepSimulation] with no sub-stepping, as the
    environment sees it: the two tick callbacks around the step, no call
    from the game in between. *)
Definition stepSimulation (env : CPhysicsEnvironment) : CPhysicsEnvironment :=
  let env := TickCallback (PreTickCallback env) in
  mkEnv (m_QueueDeleteObject env) (m_InSimulation env)
        (m_SimulationTimeStep env) (m_SimulationInvTimeStep env)
        (m_LastPSITime env) (m_TimeSinceLastPSI env)
        (m_Objects env) (m_DeadObjects env)
        (env_deleted env) (env_marked env) (S (env_steps env)).

(** One round of the loop over the PSIs of [Simulate]. *)
Definition psi_step (env : CPhysicsEnvironment) : CPhysicsEnvironment :=
  let env := stepSimulation env in
  mkEnv (m_QueueDeleteObject env) (m_InSimulation env)
        (m_SimulationTimeStep env) (m_SimulationInvTimeStep env)
        (m_LastPSITime env + m_SimulationTimeStep env) (m_TimeSinceLastPSI env)
        (m_Objects env) (m_DeadObjects env)
        (env_deleted env) (env_marked env) (env_steps env).

Definition set_TimeSinceLastPSI (env : CPhysicsEnvironment) (t : btScalar)
    : CPhysicsEnvironment :=
  mkEnv (m_QueueDeleteObject env) (m_InSimulation env)
        (m_SimulationTimeStep env) (m_SimulationInvTimeStep env)
        (m_LastPSITime env) t
        (m_Objects env) (m_DeadObjects env)
        (env_deleted env) (env_marked env) (env_steps env).

(** [CPhysicsEnvironment::Simulate]. *)
Definition Simulate (env : CPhysicsEnvironment) (deltaTime : btScalar)
    : CPhysicsEnvironment :=
  let env :=
    if Qgtb deltaTime 0 && Qltb deltaTime 1 then
      let deltaTime := MIN deltaTime (1 # 10) in
      let env := set_TimeSinceLastPSI env (m_TimeSinceLastPSI env + deltaTime) in
      let psiCount :=
        int_of_scalar (m_TimeSinceLastPSI env * m_SimulationInvTimeStep env) in
      if (0 <? psiCount)%Z then
        let oldTimeSinceLastPSI := m_TimeSinceLastPSI env in
        let env := set_TimeSinceLastPSI env 0 in
        let env := Nat.iter (Z.to_nat psiCount) psi_step env in
        set_TimeSinceLastPSI env
          (oldTimeSinceLastPSI - inject_Z psiCount * m_SimulationTimeStep env)
      else env
    else env in
  if m_QueueDeleteObject env then env else CleanupDeleteList env.




Definition GetNextFrameTime (env : CPhysicsEnvironment) : btScalar :=
  m_LastPSITime env + m_SimulationTimeStep env.

(** ** The overlap filter *)

(** What the filter reads of a physics object, of a Bullet collision
    object and of a broadphase proxy. *)
Record PhysicsObjectView := mkObjectView {
  IsCollisionEnabled : bool;
  GetCallbackFlags : Z;
  GetGameData : nat
}.

Record btCollisionObject := mkCollisionObject {
  isStaticObject : bool;
  getUserPointer : option PhysicsObjectView
}.

Record btBroadphaseProxy := mkProxy {
  m_clientObject : option btCollisionObject;
  m_collisionFilterGroup : Z;
  m_collisionFilterMask : Z
}.

(** [IPhysicsCollisionSolver::ShouldCollide], when a solver is set. *)
Definition CollisionSolver :=
  PhysicsObjectView -> PhysicsObjectView -> nat -> nat -> bool.

(** An integer used as a condition. *)
Definition nonzero (x : Z) : bool := negb (x =? 0)%Z.

(** [OverlapFilterCallback::needBroadphaseCollision]; the two callback
    flags are constants of the host's interface. *)
Definition needBroadphaseCollision
    (CALLBACK_ENABLING_COLLISION CALLBACK_MARKED_FOR_DELETE : Z)
    (m_CollisionSolver : option CollisionSolver)
    (proxy0 proxy1 : btBroadphaseProxy) : bool :=
  match m_clientObject proxy0, m_clientObject proxy1 with
  | Some collisionObject0, Some collisionObject1 =>
      if isStaticObject collisionObject0 && isStaticObject collisionObject1 then false
      else
        match getUserPointer collisionObject0, getUserPointer collisionObject1 with
        | Some object0, Some object1 =>
            if negb (IsCollisionEnabled object0) || negb (IsCollisionEnabled object1)
            then false
            else
              let default :=
                nonzero (Z.land (m_collisionFilterGroup proxy0) (m_collisionFilterMask proxy1))
                && nonzero (Z.land (m_collisionFilterGroup proxy1) (m_collisionFilterMask proxy0)) in
              match m_CollisionSolver with
              | Some ShouldCollide =>
                  let callbackFlags0 := GetCallbackFlags object0 in
                  let callbackFlags1 := GetCallbackFlags object1 in
                  if nonzero (Z.land callbackFlags0 CALLBACK_ENABLING_COLLISION)
                     && nonzero (Z.land callbackFlags1 CALLBACK_MARKED_FOR_DELETE)
                  then false
                  else if nonzero (Z.land callbackFlags1 CALLBACK_ENABLING_COLLISION)
                          && nonzero (Z.land callbackFlags0 CALLBACK_MARKED_FOR_DELETE)
                  then false
                  else if negb (ShouldCollide object0 object1
                                  (GetGameData object0) (GetGameData object1))
                  then false
                  else default
              | None => default
              end
        | _, _ => false
        end
  | _, _ => false
  end.

(** An environment with two objects waiting in the delete list. *)
Definition sample_environment : CPhysicsEnvironment :=
  mkEnv false false (15 # 1000) (1000 # 15) 0 0 [1; 2; 3; 4]%nat [5; 6]%nat [] [] 0.

(* ================================================================== *)
(** * Properties *)
(* ================================================================== *)

(** ** Boolean comparisons of scalars *)

Lemma Qltb_lt a b : Qltb a b = true <-> a < b.
Proof.
  unfold Qltb. rewrite negb_true_iff.
  destruct (Qle_bool b a) eqn:H.
  - apply Qle_bool_iff in H. split; [discriminate | intro Hlt].
    exfalso. apply (Qlt_not_le _ _ Hlt H).
  - split; [intros _ | reflexivity].
    apply Qnot_le_lt. intro Hle. apply Qle_bool_iff in Hle. congruence.
Qed.

Lemma Qltb_ge a b : Qltb a b = false <-> b <= a.
Proof.
  unfold Qltb. rewrite negb_false_iff. apply Qle_bool_iff.
Qed.

Lemma Qgeb_le a b : Qgeb a b = true <-> b <= a.
Proof. unfold Qgeb. apply Qle_bool_iff. Qed.

Lemma Qeq_bool_refl' a : Qeq_bool a a = true.
Proof. apply Qeq_bool_iff. reflexivity. Qed.

Lemma V3_eqb_refl v : V3.eqb v v = true.
Proof. unfold V3.eqb. now rewrite !Qeq_bool_refl'. Qed.

(** ** Volume and mass centre of a hull *)

Lemma eqv_refl a : a =v a.
Proof. unfold V3.eqv. repeat split; reflexivity. Qed.

Lemma eqv_add a a' b b' : a =v a' -> b =v b' -> a +v b =v a' +v b'.
Proof.
  intros (Hx & Hy & Hz) (Hx' & Hy' & Hz'). unfold V3.eqv, V3.add. simpl.
  rewrite Hx, Hy, Hz, Hx', Hy', Hz'. repeat split; reflexivity.
Qed.

Lemma eqv_div a a' s s' : a =v a' -> s == s' -> a /s s =v a' /s s'.
Proof.
  intros (Hx & Hy & Hz) Hs. unfold V3.eqv, V3.div. simpl.
  rewrite Hx, Hy, Hz, Hs. repeat split; reflexivity.
Qed.

(** The tetrahedron over the first triangle has the reference point as a
    vertex and so no volume. *)
Lemma tetrahedronSixVolume_first points indices :
  tetrahedronSixVolume points indices 0 == 0.
Proof.
  unfold tetrahedronSixVolume, btFabs. cbn [Nat.add].
  set (r := point_at points indices 0).
  set (p1 := point_at points indices 1). set (p2 := point_at points indices 2).
  assert (H : V3.triple (r -v r) (p1 -v r) (p2 -v r) == 0).
  { unfold V3.triple, V3.sub. simpl. ring. }
  rewrite H. reflexivity.
Qed.

Lemma tetrahedronCenterTerm_first points indices :
  tetrahedronCenterTerm points indices 0 =v V3.zero.
Proof.
  unfold tetrahedronCenterTerm, V3.eqv, V3.scale. simpl.
  rewrite tetrahedronSixVolume_first. repeat split; ring.
Qed.

Lemma volume_loop_fold points indices n :
  forall m k fuel acc,
    (k + m = n)%nat -> (m <= fuel)%nat ->
    volume_loop points indices fuel (3 * k) (3 * n) acc
    = fold_left (volume_step points indices)
                (map (fun t => (3 * t)%nat) (seq k m)) acc.
Proof.
  induction m as [| m IH]; intros k fuel acc Hk Hfuel.
  - assert (k = n) by lia. subst k.
    destruct fuel; simpl; [reflexivity |].
    now rewrite Nat.ltb_irrefl.
  - destruct fuel as [| fuel]; [lia |].
    cbn [volume_loop seq map fold_left].
    assert (Hlt : (3 * k <? 3 * n)%nat = true) by (apply Nat.ltb_lt; lia).
    rewrite Hlt.
    replace (3 * k + 3)%nat with (3 * S k)%nat by lia.
    rewrite IH by lia. reflexivity.
Qed.

Lemma fold_volume_step_fst points indices l :
  forall acc,
    fst (fold_left (volume_step points indices) l acc)
    = fold_left (fun sum i => sum + tetrahedronSixVolume points indices i) l (fst acc).
Proof. induction l as [| i l IH]; intro acc; simpl; [reflexivity | now rewrite IH]. Qed.

Lemma fold_volume_step_snd points indices l :
  forall acc,
    snd (fold_left (volume_step points indices) l acc)
    = fold_left (fun sum i => sum +v tetrahedronCenterTerm points indices i) l (snd acc).
Proof. induction l as [| i l IH]; intro acc; simpl; [reflexivity | now rewrite IH]. Qed.

Lemma fold_six_proper points indices l :
  forall a a', a == a' ->
    fold_left (fun sum i => sum + tetrahedronSixVolume points indices i) l a
    == fold_left (fun sum i => sum + tetrahedronSixVolume points indices i) l a'.
Proof.
  induction l as [| i l IH]; intros a a' H; simpl; [exact H |].
  apply IH. now rewrite H.
Qed.

Lemma fold_center_proper points indices l :
  forall a a', a =v a' ->
    fold_left (fun sum i => sum +v tetrahedronCenterTerm points indices i) l a
    =v fold_left (fun sum i => sum +v tetrahedronCenterTerm points indices i) l a'.
Proof.
  induction l as [| i l IH]; intros a a' H; simpl; [exact H |].
  apply IH. apply eqv_add; [exact H | apply eqv_refl].
Qed.

(** The loop as written, which starts at the second triangle, adds up to
    the sums over every triangle. *)
Lemma volume_loop_all points indices n :
  length indices = (3 * n)%nat ->
  let acc := volume_loop points indices (length indices) 3 (length indices) (0, V3.zero) in
  fst acc == sixVolume_all points indices /\
  snd acc =v centerSum_all points indices.
Proof.
  intros Hlen acc. unfold acc, sixVolume_all, centerSum_all, triangle_starts.
  rewrite Hlen.
  replace (3 * n / 3)%nat with n by (rewrite Nat.mul_comm; now rewrite Nat.div_mul).
  destruct n as [| n].
  - simpl. split; [reflexivity | apply eqv_refl].
  - assert (Hloop :
      volume_loop points indices (3 * S n) 3 (3 * S n) (0, V3.zero)
      = fold_left (volume_step points indices)
                  (map (fun t => (3 * t)%nat) (seq 1 n)) (0, V3.zero)).
    { apply (@volume_loop_fold points indices (S n) n 1); lia. }
    rewrite Hloop.
    rewrite fold_volume_step_fst, fold_volume_step_snd.
    cbn [seq map fold_left fst snd]. change (3 * 0)%nat with 0%nat.
    split.
    + apply fold_six_proper. rewrite tetrahedronSixVolume_first. ring.
    + apply fold_center_proper.
      destruct (tetrahedronCenterTerm_first points indices) as (Hx & Hy & Hz).
      unfold V3.eqv, V3.add. simpl. rewrite Hx, Hy, Hz. repeat split; ring.
Qed.



(** ** Per-triangle materials *)

Lemma closest_loop_never_runs fuel planes point triangleCount closest :
  (1 <= triangleCount)%nat ->
  closest_loop fuel planes point triangleCount 1 closest = Some closest.
Proof.
  intro H. destruct fuel; simpl.
  - destruct triangleCount; [lia | reflexivity].
  - destruct triangleCount; [lia | reflexivity].
Qed.

(** Whatever the planes and the point, the lookup answers with the
    material of triangle 0. *)
Lemma GetTriangleMaterialIndex_is_first fuel h point :
  GetTriangleMaterialIndex fuel h point = Some (nth 0 (m_TriangleMaterials h) 0%Z).
Proof.
  unfold GetTriangleMaterialIndex.
  destruct (m_TriangleMaterials h) as [| m rest] eqn:Hm; [reflexivity |].
  cbn [length Nat.eqb]. rewrite closest_loop_never_runs by (simpl; lia). reflexivity.
Qed.

(** C2, on the code: the hull decoded from the sample ledge has the
    materials 1 and 2 on triangles whose planes are [x = 0] and [x = 1];
    the query point [(1, 0, 0)] lies in the second plane and at distance 1
    from the first, so the nearest plane carries material 2, but the
    lookup returns material 1. *)
Theorem material_lookup_returns_first_triangle :
  exists h,
    CreateFromIVPCompactLedge LittleEndian (mkByteswap false) material_ledge
                              sample_externals 0 = Some h /\
    m_TriangleMaterials h = [1%Z; 2%Z] /\
    length (m_TrianglePlanes h) = 2%nat /\
    plane_distance (nth 0 (m_TrianglePlanes h) plane_zero) (mkV 1 0 0) == 1 /\
    plane_distance (nth 1 (m_TrianglePlanes h) plane_zero) (mkV 1 0 0) == 0 /\
    nearest_plane_material h (mkV 1 0 0) = 2%Z /\
    GetTriangleMaterialIndex 0 h (mkV 1 0 0) = Some 1%Z.
Proof.
  eexists. split; [vm_compute; reflexivity |].
  repeat split; vm_compute; reflexivity.
Qed.

(** ** Decoding a ledge *)

Lemma CalculateTrianglePlanes_geometry E h :
  geometry (CalculateTrianglePlanes E h) = geometry h.
Proof. unfold CalculateTrianglePlanes. now destruct (m_TrianglePlanes h). Qed.

Lemma CPhysConvex_Hull_of_ledge_points host byteswap mem E ledge ledgePoints :
  hull_points (CPhysConvex_Hull_of_ledge host byteswap mem E ledge ledgePoints)
  = ledgePoints.
Proof.
  unfold CPhysConvex_Hull_of_ledge.
  destruct (fold_left _ _ _) as [indices materials].
  destruct materials; [reflexivity |].
  match goal with |- hull_points (CalculateTrianglePlanes ?e ?h) = _ =>
    change (fst (fst (geometry (CalculateTrianglePlanes e h))) = ledgePoints);
    now rewrite CalculateTrianglePlanes_geometry end.
Qed.

(** C7: decoding a ledge yields no hull exactly when the derived point
    count, [size_div_16 - n_triangles - 1], is below 3 or the triangle
    count is not positive; otherwise it yields a hull with that many
    points, the point of index [i] being the stored point of index [i]
    with its second and third coordinates negated. *)
Theorem CreateFromIVPCompactLedge_result (host : ByteOrder) (byteswap : CByteswap)
    (mem : Memory) (E : Externals) (ledge : Z) :
  let L := swap_ledge host byteswap mem ledge in
  get_n_points L = (size_div_16 L - n_triangles L - 1)%Z /\
  (CreateFromIVPCompactLedge host byteswap mem E ledge = None <->
   (get_n_points L < 3 \/ n_triangles L <= 0)%Z) /\
  (~ (get_n_points L < 3 \/ n_triangles L <= 0)%Z ->
   exists h,
     CreateFromIVPCompactLedge host byteswap mem E ledge = Some h /\
     length (hull_points h) = Z.to_nat (get_n_points L) /\
     forall i, (i < Z.to_nat (get_n_points L))%nat ->
       let stored := swap_point host byteswap mem
                       (ledge + c_point_offset L + 16 * Z.of_nat i)%Z in
       nth i (hull_points h) V3.zero
       = mkV (k0 stored) (- k1 stored) (- k2 stored)).
Proof.
  intro L. split; [reflexivity |].
  unfold CreateFromIVPCompactLedge. fold L.
  destruct ((get_n_points L <? 3)%Z || (n_triangles L <=? 0)%Z) eqn:Hc.
  - apply orb_true_iff in Hc.
    assert (Hp : (get_n_points L < 3 \/ n_triangles L <= 0)%Z).
    { destruct Hc as [Hc | Hc]; [left; now apply Z.ltb_lt | right; now apply Z.leb_le]. }
    split; [tauto |]. intro Hn. contradiction.
  - apply orb_false_iff in Hc. destruct Hc as [Hc1 Hc2].
    apply Z.ltb_ge in Hc1. apply Z.leb_gt in Hc2.
    split.
    + split; [discriminate | intros [H | H]; lia].
    + intros _. eexists. split; [reflexivity |].
      rewrite CPhysConvex_Hull_of_ledge_points, length_map, length_seq.
      split; [reflexivity |].
      intros i Hi. cbv zeta.
      rewrite nth_indep with (d' := ledge_point host byteswap mem
                                      (ledge + c_point_offset L)%Z O)
        by (now rewrite length_map, length_seq).
      rewrite (map_nth (ledge_point host byteswap mem (ledge + c_point_offset L)%Z)
                       (seq 0 (Z.to_nat (get_n_points L))) O i).
      rewrite seq_nth by assumption. reflexivity.
Qed.

Lemma CreateFromIVPCompactLedge_result_witness :
  let L := swap_ledge LittleEndian (mkByteswap false) native_ledge 0 in
  ~ (get_n_points L < 3 \/ n_triangles L <= 0)%Z /\
  exists h,
    CreateFromIVPCompactLedge LittleEndian (mkByteswap false) native_ledge
                              sample_externals 0 = Some h /\
    length (hull_points h) = 3%nat.
Proof.
  intro L.
  assert (Hn : ~ (get_n_points L < 3 \/ n_triangles L <= 0)%Z).
  { vm_compute. intros [H | H]; [discriminate H | apply H; reflexivity]. }
  split; [exact Hn |].
  destruct (proj2 (proj2 (CreateFromIVPCompactLedge_result LittleEndian
                            (mkByteswap false) native_ledge sample_externals 0)) Hn)
    as (h & Hh & Hlen & _).
  exists h. split; [exact Hh | exact Hlen].
Defined.

(** ** Byte order *)

Lemma swapped_field_foreign host native foreign a n :
  reversed_field native foreign a n ->
  swapped_field host (mkByteswap true) foreign a n
  = swapped_field host (mkByteswap false) native a n.
Proof.
  unfold reversed_field, swapped_field. intro H. simpl.
  now rewrite H, rev_involutive.
Qed.

Section ForeignImage.

Variables (host : ByteOrder) (native foreign : Memory) (ledge : Z).
Hypothesis Himage : foreign_image host native foreign ledge.

Let L := swap_ledge host (mkByteswap false) native ledge.

Lemma swap_ledge_foreign :
  swap_ledge host (mkByteswap true) foreign ledge = L.
Proof.
  destruct Himage as (H0 & H4 & H8 & H12 & H14 & _).
  unfold L, swap_ledge.
  rewrite (@swapped_field_foreign host _ _ _ _ H0),
          (@swapped_field_foreign host _ _ _ _ H4),
          (@swapped_field_foreign host _ _ _ _ H8),
          (@swapped_field_foreign host _ _ _ _ H12),
          (@swapped_field_foreign host _ _ _ _ H14).
  reflexivity.
Qed.

Lemma swap_triangle_foreign (t : nat) :
  (Z.of_nat t < n_triangles L)%Z ->
  swap_triangle host (mkByteswap true) foreign (ledge + 16 + 16 * Z.of_nat t)
  = swap_triangle host (mkByteswap false) native (ledge + 16 + 16 * Z.of_nat t).
Proof.
  intro Ht. destruct Himage as (_ & _ & _ & _ & _ & Htri & _). fold L in Htri.
  assert (Hw : forall w, (0 <= w < 4)%Z ->
            swapped_field host (mkByteswap true) foreign
              (ledge + 16 + 16 * Z.of_nat t + 4 * w) 4
            = swapped_field host (mkByteswap false) native
                (ledge + 16 + 16 * Z.of_nat t + 4 * w) 4).
  { intros w Hw. apply swapped_field_foreign, Htri; lia. }
  pose proof (Hw 0%Z ltac:(lia)) as E0. pose proof (Hw 1%Z ltac:(lia)) as E1.
  pose proof (Hw 2%Z ltac:(lia)) as E2. pose proof (Hw 3%Z ltac:(lia)) as E3.
  change (4 * 0)%Z with 0%Z in E0. rewrite Z.add_0_r in E0.
  change (4 * 1)%Z with 4%Z in E1. change (4 * 2)%Z with 8%Z in E2.
  change (4 * 3)%Z with 12%Z in E3.
  unfold swap_triangle, swap_edge. now rewrite E0, E1, E2, E3.
Qed.

Lemma swap_point_foreign (p : nat) :
  (Z.of_nat p < get_n_points L)%Z ->
  swap_point host (mkByteswap true) foreign
    (ledge + c_point_offset L + 16 * Z.of_nat p)
  = swap_point host (mkByteswap false) native
      (ledge + c_point_offset L + 16 * Z.of_nat p).
Proof.
  intro Hp. destruct Himage as (_ & _ & _ & _ & _ & _ & Hpt). fold L in Hpt.
  assert (Hw : forall w, (0 <= w < 4)%Z ->
            swapped_field host (mkByteswap true) foreign
              (ledge + c_point_offset L + 16 * Z.of_nat p + 4 * w) 4
            = swapped_field host (mkByteswap false) native
                (ledge + c_point_offset L + 16 * Z.of_nat p + 4 * w) 4).
  { intros w Hw. apply swapped_field_foreign, Hpt; lia. }
  pose proof (Hw 0%Z ltac:(lia)) as E0. pose proof (Hw 1%Z ltac:(lia)) as E1.
  pose proof (Hw 2%Z ltac:(lia)) as E2. pose proof (Hw 3%Z ltac:(lia)) as E3.
  change (4 * 0)%Z with 0%Z in E0. rewrite Z.add_0_r in E0.
  change (4 * 1)%Z with 4%Z in E1. change (4 * 2)%Z with 8%Z in E2.
  change (4 * 3)%Z with 12%Z in E3.
  unfold swap_point. now rewrite E0, E1, E2, E3.
Qed.

Lemma ledge_triangle_loop_foreign (n : nat) :
  (Z.of_nat n <= n_triangles L)%Z ->
  forall count acc,
    fold_left (ledge_triangle_step host (mkByteswap true) foreign (ledge + 16) count)
              (seq 0 n) acc
    = fold_left (ledge_triangle_step host (mkByteswap false) native (ledge + 16) count)
                (seq 0 n) acc.
Proof.
  induction n as [| n IH]; intros Hn count acc; [reflexivity |].
  rewrite seq_S, !fold_left_app. cbn [fold_left Nat.add].
  rewrite IH by lia.
  unfold ledge_triangle_step at 1 3.
  now rewrite swap_triangle_foreign by lia.
Qed.

(** The part of C5 that the decoder keeps: reading the byte-swapped image
    of a ledge with swapping switched on gives the points, the triangle
    indices and the materials that reading the native buffer with
    swapping switched off gives. *)
Lemma foreign_ledge_same_geometry (E : Externals) :
  option_map geometry
    (CreateFromIVPCompactLedge host (mkByteswap true) foreign E ledge)
  = option_map geometry
      (CreateFromIVPCompactLedge host (mkByteswap false) native E ledge).
Proof.
  unfold CreateFromIVPCompactLedge. rewrite swap_ledge_foreign. fold L.
  destruct ((get_n_points L <? 3)%Z || (n_triangles L <=? 0)%Z) eqn:Hc;
    [reflexivity |].
  apply orb_false_iff in Hc. destruct Hc as [Hc1 Hc2].
  apply Z.ltb_ge in Hc1. apply Z.leb_gt in Hc2.
  assert (Hpts :
    map (ledge_point host (mkByteswap true) foreign (ledge + c_point_offset L))
        (seq 0 (Z.to_nat (get_n_points L)))
    = map (ledge_point host (mkByteswap false) native (ledge + c_point_offset L))
          (seq 0 (Z.to_nat (get_n_points L)))).
  { apply map_ext_in. intros p Hp. apply in_seq in Hp.
    unfold ledge_point. now rewrite swap_point_foreign by lia. }
  rewrite Hpts. cbn [option_map]. f_equal.
  unfold CPhysConvex_Hull_of_ledge. rewrite swap_ledge_foreign. fold L.
  rewrite ledge_triangle_loop_foreign by lia.
  destruct (fold_left _ _ _) as [indices materials].
  destruct materials; [reflexivity |].
  now rewrite !CalculateTrianglePlanes_geometry.
Qed.

End ForeignImage.

Lemma sample_foreign_image : foreign_image LittleEndian native_ledge foreign_ledge 0.
Proof.
  unfold foreign_image.
  change (n_triangles (swap_ledge LittleEndian (mkByteswap false) native_ledge 0))
    with 1%Z.
  change (get_n_points (swap_ledge LittleEndian (mkByteswap false) native_ledge 0))
    with 3%Z.
  change (c_point_offset (swap_ledge LittleEndian (mkByteswap false) native_ledge 0))
    with 32%Z.
  repeat split; try reflexivity.
  - intros t w Ht Hw.
    assert (t = 0)%Z by lia. subst t.
    assert (w = 0 \/ w = 1 \/ w = 2 \/ w = 3)%Z as [-> | [-> | [-> | ->]]] by lia;
      reflexivity.
  - intros p w Hp Hw.
    assert (p = 0 \/ p = 1 \/ p = 2)%Z as [-> | [-> | ->]] by lia;
      (assert (w = 0 \/ w = 1 \/ w = 2 \/ w = 3)%Z as [-> | [-> | [-> | ->]]] by lia;
       reflexivity).
Qed.

(** C5, on the code: for the sample ledge and any collaborators, decoding the byte-swapped
    buffer with swapping on and the native buffer with swapping off give
    the same points, indices and materials, but the constructor reads
    [client_data] through the pointer into the buffer instead of from the
    scratch copy: the user index of the hull is 1 from the native buffer
    and 16777216 (the bytes of 1 in reverse) from the foreign one. *)
Theorem foreign_ledge_client_data_read_in_place (E : Externals) :
  foreign_image LittleEndian native_ledge foreign_ledge 0 /\
  option_map geometry
    (CreateFromIVPCompactLedge LittleEndian (mkByteswap true) foreign_ledge E 0)
  = option_map geometry
      (CreateFromIVPCompactLedge LittleEndian (mkByteswap false) native_ledge E 0) /\
  client_data (swap_ledge LittleEndian (mkByteswap true) foreign_ledge 0) = 1%Z /\
  option_map hull_userIndex
    (CreateFromIVPCompactLedge LittleEndian (mkByteswap false) native_ledge E 0)
  = Some 1%Z /\
  option_map hull_userIndex
    (CreateFromIVPCompactLedge LittleEndian (mkByteswap true) foreign_ledge E 0)
  = Some 16777216%Z.
Proof.
  split; [exact sample_foreign_image |].
  split; [apply foreign_ledge_same_geometry; exact sample_foreign_image |].
  split; [reflexivity |].
  split; vm_compute; reflexivity.
Qed.

(** ** Empty boxes *)

(** C10: when [mins == maxs], [CreateBBox] and both entry points built on
    it, [BBoxToConvex] and [BBoxToCollide], return [nullptr] and leave the
    cache as it was. *)
Theorem bbox_of_equal_bounds_is_null (E : Externals) (st : CPhysicsCollision)
    (mins maxs : Vector) :
  V3.eqb mins maxs = true ->
  CreateBBox E st mins maxs = (None, st) /\
  BBoxToConvex E st mins maxs = (None, st) /\
  BBoxToCollide E st mins maxs = (None, st).
Proof.
  intro Heq.
  assert (H : CreateBBox E st mins maxs = (None, st)).
  { unfold CreateBBox. now rewrite Heq. }
  unfold BBoxToConvex, BBoxToCollide. rewrite H. auto.
Qed.

Lemma bbox_of_equal_bounds_is_null_witness :
  V3.eqb (mkV 1 2 3) (mkV (2 # 2) 2 3) = true /\
  CreateBBox sample_externals (mkCollision []) (mkV 1 2 3) (mkV (2 # 2) 2 3)
    = (None, mkCollision []) /\
  BBoxToConvex sample_externals (mkCollision []) (mkV 1 2 3) (mkV (2 # 2) 2 3)
    = (None, mkCollision []) /\
  BBoxToCollide sample_externals (mkCollision []) (mkV 1 2 3) (mkV (2 # 2) 2 3)
    = (None, mkCollision []).
Proof.
  split; [reflexivity |].
  apply (@bbox_of_equal_bounds_is_null sample_externals (mkCollision [])
           (mkV 1 2 3) (mkV (2 # 2) 2 3)).
  reflexivity.
Defined.

(** ** The bounding box cache *)

(** The loop over the components is decided by component 0 alone. *)
Lemma component_loop_first_component che he co o threshold p :
  component_loop [0; 1; 2]%nat che he co o threshold (Some p)
  = if Qgtb (btFabs (getX che - getX he)) threshold
       || Qgtb (btFabs (getX co - getX o)) threshold
    then LeftLoop None else Returned p.
Proof. reflexivity. Qed.




(** ** Ownership tags *)

Lemma Owner_eqb_eq a b : Owner_eqb a b = true <-> a = b.
Proof. destruct a, b; simpl; split; intro H; try reflexivity; discriminate. Qed.

Lemma absorb_settled c : GetOwner c <> OWNER_GAME -> absorb c = c.
Proof.
  intro H. unfold absorb.
  destruct (Owner_eqb (GetOwner c) OWNER_GAME) eqn:Hb; [| reflexivity].
  apply Owner_eqb_eq in Hb. contradiction.
Qed.

Lemma absorb_game c : GetOwner c = OWNER_GAME -> absorb c = SetOwner c OWNER_COMPOUND.
Proof. intro H. unfold absorb. now rewrite H. Qed.

Lemma absorb_shape c : convex_shape (absorb c) = convex_shape c.
Proof. unfold absorb. now destruct (Owner_eqb _ _). Qed.

Lemma Compound_new_array E pConvex :
  snd (Compound_new E pConvex) = map absorb pConvex.
Proof. reflexivity. Qed.

Lemma ConvexFree_settled c : GetOwner c <> OWNER_GAME -> ConvexFree c = Some c.
Proof.
  intro H. unfold ConvexFree.
  destruct (Owner_eqb (GetOwner c) OWNER_GAME) eqn:Hb; [| reflexivity].
  apply Owner_eqb_eq in Hb. contradiction.
Qed.

Lemma convex_step_settled ev c :
  GetOwner c <> OWNER_GAME -> convex_step ev c = Some c.
Proof.
  intro H. destruct ev as [| E before after]; unfold convex_step.
  - now apply ConvexFree_settled.
  - rewrite Compound_new_array, map_app, nth_error_app2; rewrite length_map; [| lia].
    rewrite Nat.sub_diag. simpl. now rewrite absorb_settled.
Qed.

Lemma CalculateInertia_shape E c : m_Shape (CalculateInertia E c) = m_Shape c.
Proof.
  unfold CalculateInertia, Compound_GetVolume.
  destruct (Qltb (m_Volume c) 0); simpl;
    match goal with |- context [CalculateInertia_path ?e ?x] =>
      destruct (CalculateInertia_path e x) end; simpl;
    try reflexivity;
    match goal with |- context [btCompoundShape.getAabb ?e ?x] =>
      destruct (btCompoundShape.getAabb e x) end; reflexivity.
Qed.

Lemma addChildShape_fold E mc l s :
  btCompoundShape.children
    (fold_left (fun s convex =>
                  btCompoundShape.addChildShape E s (GetOriginInCompound convex -v mc) convex)
               l s)
  = btCompoundShape.children s
    ++ map (fun convex => mkChild convex (GetOriginInCompound convex -v mc)) l.
Proof.
  revert s. induction l as [| c l IH]; intro s; simpl.
  - now rewrite app_nil_r.
  - rewrite IH. simpl. now rewrite <- app_assoc.
Qed.

Lemma Compound_new_children E pConvex :
  btCompoundShape.children (m_Shape (fst (Compound_new E pConvex)))
  = map (fun convex => mkChild convex (GetOriginInCompound convex -v compound_center E pConvex))
        (map absorb pConvex).
Proof.
  unfold Compound_new. simpl. rewrite CalculateInertia_shape. simpl.
  now rewrite addChildShape_fold.
Qed.

Lemma cache_reachable_internal E st :
  cache_reachable E st -> Forall cache_entry_internal (m_BBoxCache st).
Proof.
  induction 1 as [| st mins maxs Hr IH]; [constructor |].
  unfold CreateBBox.
  destruct (V3.eqb mins maxs); [exact IH |].
  destruct (cache_loop _ _ _ _ _); [exact IH |].
  cbn [snd m_BBoxCache]. apply Forall_app. split; [exact IH |].
  constructor; [| constructor].
  unfold cache_entry_internal, Collide_SetOwner. cbn [m_Shape].
  rewrite Compound_new_children. cbn [map].
  eexists. eexists. split; [reflexivity |]. reflexivity.
Qed.

(** C9: [ConvexFree] deletes a convex exactly when its tag is [OWNER_GAME]
    and leaves every compound-owned or internally owned convex untouched;
    the compound constructor retags game-owned convexes to
    [OWNER_COMPOUND] and leaves all others as they are; hence, whatever
    sequence of frees and compound constructions follows, a convex whose
    tag has left [OWNER_GAME] stays alive and unchanged; and the convex
    that [BBoxToConvex] hands out is always tagged [OWNER_INTERNAL]. *)
Theorem ownership_tag_is_final :
  (forall c, ConvexFree c = None <-> GetOwner c = OWNER_GAME) /\
  (forall c, GetOwner c = OWNER_COMPOUND \/ GetOwner c = OWNER_INTERNAL ->
             ConvexFree c = Some c) /\
  (forall E pConvex i c,
      nth_error pConvex i = Some c ->
      exists c',
        nth_error (snd (Compound_new E pConvex)) i = Some c' /\
        convex_shape c' = convex_shape c /\
        (GetOwner c = OWNER_GAME -> GetOwner c' = OWNER_COMPOUND) /\
        (GetOwner c <> OWNER_GAME -> c' = c)) /\
  (forall evs c, GetOwner c <> OWNER_GAME -> convex_run evs c = Some c) /\
  (forall E st mins maxs c st',
      cache_reachable E st ->
      BBoxToConvex E st mins maxs = (Some c, st') ->
      GetOwner c = OWNER_INTERNAL /\ ConvexFree c = Some c).
Proof.
  split; [| split; [| split; [| split]]].
  - intro c. unfold ConvexFree.
    destruct (Owner_eqb (GetOwner c) OWNER_GAME) eqn:Hb.
    + apply Owner_eqb_eq in Hb. tauto.
    + split; [discriminate |]. intro H. apply Owner_eqb_eq in H. congruence.
  - intros c [H | H]; apply ConvexFree_settled; rewrite H; discriminate.
  - intros E pConvex i c Hi. exists (absorb c).
    rewrite Compound_new_array, nth_error_map, Hi. simpl.
    split; [reflexivity |]. split; [apply absorb_shape |]. split.
    + intro Hg. now rewrite absorb_game.
    + apply absorb_settled.
  - induction evs as [| ev evs IH]; intros c Hc; simpl; [reflexivity |].
    rewrite convex_step_settled by assumption. now apply IH.
  - intros E st mins maxs c st' Hr Hb.
    assert (Hinv : Forall cache_entry_internal
                     (m_BBoxCache (snd (CreateBBox E st mins maxs)))).
    { apply cache_reachable_internal with (E := E). apply cache_request. exact Hr. }
    unfold BBoxToConvex in Hb.
    destruct (CreateBBox E st mins maxs) as [[p |] st1]; simpl in *; [| discriminate].
    destruct (nth_error (m_BBoxCache st1) p) as [compound |] eqn:Hp; [| discriminate].
    rewrite Forall_forall in Hinv.
    destruct (Hinv compound (nth_error_In _ _ Hp)) as (ch & rest & Hch & Hown).
    rewrite Hch in Hb. injection Hb as <- <-.
    split; [exact Hown |].
    apply ConvexFree_settled. rewrite Hown. discriminate.
Qed.

Lemma ownership_tag_is_final_witness :
  let box := SetOwner (new_box (mkBox (mkV 1 1 1) 0 V3.zero)) OWNER_INTERNAL in
  GetOwner box <> OWNER_GAME /\
  convex_run [EvCompound sample_externals [] []; EvConvexFree] box = Some box.
Proof.
  intro box.
  assert (H : GetOwner box <> OWNER_GAME) by (simpl; discriminate).
  split; [exact H |].
  exact (proj1 (proj2 (proj2 (proj2 ownership_tag_is_final)))
           [EvCompound sample_externals [] []; EvConvexFree] box H).
Defined.

(** ** Inertia of a compound *)

(** The box approximation is reached for a negative volume only; a volume
    of zero takes the branch that divides by it. *)
Lemma CalculateInertia_path_of_zero E c :
  fst (Compound_GetVolume E c) == 0 ->
  CalculateInertia_path E c = DivideByVolume (fst (Compound_GetVolume E c)).
Proof.
  intro H. unfold CalculateInertia_path.
  destruct (Qgeb (fst (Compound_GetVolume E c)) 0) eqn:Hg; [reflexivity |].
  assert (Hle : 0 <= fst (Compound_GetVolume E c)) by (rewrite H; apply Qle_refl).
  apply Qgeb_le in Hle. congruence.
Qed.

Lemma CalculateInertia_of_nonnegative E c :
  0 <= m_Volume c ->
  CalculateInertia_path E c = DivideByVolume (m_Volume c) /\
  CalculateInertia E c
  = set_Inertia c
      (V3.absolute (inertia_sum E (btCompoundShape.children (m_Shape c)) /s m_Volume c)).
Proof.
  intro H.
  assert (Hgv : Compound_GetVolume E c = (m_Volume c, c)).
  { unfold Compound_GetVolume.
    destruct (Qltb (m_Volume c) 0) eqn:Hlt; [| reflexivity].
    apply Qltb_lt in Hlt. exfalso. apply (Qlt_not_le _ _ Hlt H). }
  assert (Hpath : CalculateInertia_path E c = DivideByVolume (m_Volume c)).
  { unfold CalculateInertia_path. rewrite Hgv. cbn [fst].
    apply Qgeb_le in H. now rewrite H. }
  split; [exact Hpath |].
  unfold CalculateInertia. rewrite Hgv. cbn [snd]. now rewrite Hpath.
Qed.

(** The volume a hull reports on its first query. *)
Lemma Hull_GetVolume_first_query E h n :
  hull_Volume h < 0 ->
  length (m_TriangleIndices h) = (3 * n)%nat ->
  Hull_GetVolume E h
  == (1 / 6) * sixVolume_all (hull_points h) (m_TriangleIndices h).
Proof.
  intros Hfirst Hlen.
  pose proof (@volume_loop_all (hull_points h) (m_TriangleIndices h) n Hlen) as Hall.
  cbv zeta in Hall.
  unfold Hull_GetVolume, CalculateVolumeProperties.
  assert (Hg : Qgeb (hull_Volume h) 0 = false).
  { destruct (Qgeb (hull_Volume h) 0) eqn:Hg; [| reflexivity].
    apply Qgeb_le in Hg. exfalso. apply (Qlt_not_le _ _ Hfirst Hg). }
  rewrite Hg.
  destruct (volume_loop _ _ _ _ _ _) as [sixVolume massCenterSum].
  destruct Hall as [Hsix _]. cbn [fst] in Hsix.
  destruct (Qgtb ((1 / 6) * sixVolume) 0).
  - cbn [hull_Volume]. now rewrite Hsix.
  - destruct (btConvexHullShape_getAabb E _ _). cbn [hull_Volume]. now rewrite Hsix.
Qed.

(** C3, on the code: the compound of the collinear hull has one child, of
    volume zero, and a total volume of zero; [CalculateInertia] does not
    take the box approximation for it but the branch that divides the
    accumulated inertia by that volume, and the inertia the constructor
    stored is that quotient. *)
Theorem zero_volume_compound_divides_by_zero (E : Externals) :
  let c := collinear_compound E in
  map child_convex (btCompoundShape.children (m_Shape c))
  = [SetOwner (new_hull (collinear_hull E)) OWNER_COMPOUND] /\
  GetVolume E (new_hull (collinear_hull E)) == 0 /\
  m_Volume c == 0 /\
  CalculateInertia_path E c = DivideByVolume (m_Volume c) /\
  m_Inertia c
  = V3.absolute (inertia_sum E (btCompoundShape.children (m_Shape c)) /s m_Volume c).
Proof.
  intro c.
  assert (Hhull : GetVolume E (new_hull (collinear_hull E)) == 0).
  { unfold GetVolume. cbn [convex_shape new_hull].
    rewrite (@Hull_GetVolume_first_query E (collinear_hull E) 2);
      [vm_compute | |]; reflexivity. }
  unfold c, collinear_compound, Compound_new. cbn [fst].
  match goal with |- context [CalculateInertia E ?c0] => set (c0' := c0) end.
  assert (Hvol : m_Volume c0' == 0).
  { unfold c0'. cbn [m_Volume volume_and_center fold_left fst].
    rewrite Hhull. reflexivity. }
  assert (Hnn : 0 <= m_Volume c0') by (rewrite Hvol; apply Qle_refl).
  destruct (CalculateInertia_of_nonnegative E c0' Hnn) as [Hpath Hcalc].
  rewrite Hcalc. unfold set_Inertia. cbn [m_Shape m_Volume m_Inertia].
  split; [| split; [exact Hhull | split; [exact Hvol | split]]].
  - unfold c0'. cbn [m_Shape]. rewrite addChildShape_fold. reflexivity.
  - match goal with |- CalculateInertia_path E ?c1 = _ =>
      exact (proj1 (CalculateInertia_of_nonnegative E c1 Hnn)) end.
  - reflexivity.
Qed.

(** ** Moving the mass centre *)

Lemma notify_loop_circular next firstObject oldMassCenter :
  forall rest object calls fuel,
    linked next (object :: rest) firstObject ->
    ~ In firstObject rest ->
    (length (object :: rest) <= fuel)%nat ->
    notify_loop fuel next firstObject object oldMassCenter calls
    = Some (calls ++ map (fun o => (o, oldMassCenter)) (object :: rest)).
Proof.
  induction rest as [| o' rest IH]; intros object calls fuel Hl Hnin Hfuel.
  - destruct fuel as [| fuel]; [simpl in Hfuel; lia |].
    simpl in Hl. simpl. rewrite Hl, Nat.eqb_refl. reflexivity.
  - destruct fuel as [| fuel]; [simpl in Hfuel; lia |].
    destruct Hl as [Hnext Hl].
    cbn [notify_loop]. rewrite Hnext.
    destruct (Nat.eqb_spec o' firstObject) as [-> | Hne].
    + exfalso. apply Hnin. now left.
    + rewrite IH.
      * rewrite <- app_assoc. reflexivity.
      * exact Hl.
      * intro Hin. apply Hnin. now right.
      * simpl in *. lia.
Qed.

Lemma setOrigin_middle done ch todo origin :
  btCompoundShape.setOrigin (done ++ ch :: todo) (length done) origin
  = done ++ mkChild (child_convex ch) origin :: todo.
Proof. induction done as [| x done IH]; simpl; [reflexivity | now rewrite IH]. Qed.

Lemma recenter_children_spec massCenter :
  forall todo done aabb,
    recenter_children (length todo) (length done)
                      (btCompoundShape.mk (done ++ todo) aabb) massCenter
    = btCompoundShape.mk (done ++ map (recenter massCenter) todo) aabb.
Proof.
  induction todo as [| ch todo IH]; intros done aabb; [reflexivity |].
  cbn [length recenter_children btCompoundShape.children].
  rewrite app_nth2, Nat.sub_diag by lia. cbn [nth].
  unfold btCompoundShape.updateChildTransform. cbn [btCompoundShape.children
    btCompoundShape.localAabb].
  rewrite setOrigin_middle.
  replace (S (length done)) with (length (done ++ [recenter massCenter ch]))
    by (rewrite length_app; simpl; lia).
  change (done ++ mkChild (child_convex ch)
                    (GetOriginInCompound (child_convex ch) -v massCenter) :: todo)
    with (done ++ [recenter massCenter ch] ++ todo).
  rewrite app_assoc, IH, <- app_assoc. reflexivity.
Qed.

Lemma CalculateInertia_refs E c :
  m_ObjectReferenceList (CalculateInertia E c) = m_ObjectReferenceList c /\
  m_MassCenter (CalculateInertia E c) = m_MassCenter c.
Proof.
  unfold CalculateInertia, Compound_GetVolume.
  destruct (Qltb (m_Volume c) 0); simpl;
    match goal with |- context [CalculateInertia_path ?e ?x] =>
      destruct (CalculateInertia_path e x) end; simpl;
    try (split; reflexivity);
    match goal with |- context [btCompoundShape.getAabb ?e ?x] =>
      destruct (btCompoundShape.getAabb e x) end; split; reflexivity.
Qed.



(** ** Two unit boxes *)

Lemma two_boxes_center E d :
  compound_center E (two_boxes d)
  = snd (volume_and_center E (two_boxes d)) /s fst (volume_and_center E (two_boxes d)).
Proof.
  unfold compound_center.
  destruct (volume_and_center E (two_boxes d)) as [v s] eqn:Hvc.
  assert (Hv : v = fst (volume_and_center E (two_boxes d))) by now rewrite Hvc.
  assert (Hpos : Qgtb v 0 = true) by (rewrite Hv; reflexivity).
  now rewrite Hpos.
Qed.

Lemma two_boxes_center_zero E d : compound_center E (two_boxes d) =v V3.zero.
Proof.
  rewrite two_boxes_center. destruct d as [dx dy dz].
  unfold V3.eqv. cbn -[Qplus Qmult Qminus Qdiv Qopp].
  unfold Box_GetVolume. cbn -[Qplus Qmult Qminus Qdiv Qopp].
  repeat split; field.
Qed.

(** C8: the compound of two unit cubes centred at [d] and [-d] has total
    volume 2, which is positive; its mass centre, the volume-weighted sum
    of origin plus local mass centre divided by the total volume, is the
    origin; and its inertia is the absolute value of twice one cube's
    inertia plus the parallel-axis corrections for [d] and for [-d],
    divided by the total volume. *)
Theorem two_unit_boxes_compound (E : Externals) (d : btVector3) :
  let c := fst (Compound_new E (two_boxes d)) in
  let boxInertia := GetInertia E (unit_box d) in
  m_Volume c == 2 /\
  m_MassCenter c
  = snd (volume_and_center E (two_boxes d)) /s fst (volume_and_center E (two_boxes d)) /\
  m_MassCenter c =v V3.zero /\
  m_Inertia c
  =v V3.absolute ((2 *s boxInertia +v parallel_axis_correction d
                   +v parallel_axis_correction (V3.neg d)) /s 2).
Proof.
  intros c boxInertia.
  assert (Hmc : m_MassCenter c = compound_center E (two_boxes d)).
  { unfold c, Compound_new. cbn [fst].
    now rewrite (proj2 (CalculateInertia_refs E _)). }
  split; [| split; [| split]].
  - vm_compute. reflexivity.
  - rewrite Hmc. apply two_boxes_center.
  - rewrite Hmc. apply two_boxes_center_zero.
  - assert (Hch := Compound_new_children E (two_boxes d)).
    unfold boxInertia, c, Compound_new in *. cbn [fst] in *.
    unfold CalculateInertia in *.
    match goal with |- context [Compound_GetVolume E ?c0] => set (c0' := c0) in * end.
    assert (Hgv : Compound_GetVolume E c0' = (m_Volume c0', c0')) by reflexivity.
    rewrite Hgv in *. cbn [snd] in *.
    assert (Hpath : CalculateInertia_path E c0' = DivideByVolume (m_Volume c0')).
    { unfold CalculateInertia_path. rewrite Hgv. reflexivity. }
    rewrite Hpath in *. unfold set_Inertia in *. cbn [m_Inertia m_Shape] in *.
    rewrite Hch, two_boxes_center.
    destruct d as [dx dy dz].
    unfold V3.eqv, btFabs. cbn -[Qplus Qmult Qminus Qdiv Qopp Qabs].
    unfold Box_GetVolume, V3.length2, V3.dot, V3.sub, V3.add, V3.scale, V3.div,
      V3.neg, V3.zero.
    cbn -[Qplus Qmult Qminus Qdiv Qopp Qabs].
    repeat split; apply Qabs_wd; field.
Qed.

(** * Further properties *)

(** ** Volume of a hull *)

Lemma volume_loop_nonneg points indices :
  forall fuel indexIndex indexCount acc,
    0 <= fst acc ->
    0 <= fst (volume_loop points indices fuel indexIndex indexCount acc).
Proof.
  induction fuel as [| fuel IH]; intros indexIndex indexCount acc Hacc; simpl;
    [exact Hacc |].
  destruct (indexIndex <? indexCount)%nat; [| exact Hacc].
  apply IH. cbn [fst].
  apply (Qle_trans _ (fst acc + 0)); [lra |].
  apply Qplus_le_r. unfold tetrahedronSixVolume, btFabs. apply Qabs_nonneg.
Qed.

Lemma sixth_nonneg s : 0 <= s -> 0 <= (1 / 6) * s.
Proof.
  intro H. apply Qmult_le_0_compat; [| exact H].
  unfold Qle. simpl. lia.
Qed.

(** X1: whatever the triangles, the volume a hull reports is never
    negative, and once the volume properties were calculated a further
    calculation changes nothing: the loops run once per hull. *)
Theorem hull_volume_properties_computed_once (E : Externals) (h : CPhysConvex_Hull) :
  let h' := CalculateVolumeProperties E h in
  (hull_Volume h < 0 -> 0 <= hull_Volume h') /\
  (0 <= hull_Volume h -> h' = h) /\
  (hull_Volume h < 0 -> CalculateVolumeProperties E h' = h').
Proof.
  intro h'.
  assert (Hkeep : forall g, 0 <= hull_Volume g -> CalculateVolumeProperties E g = g).
  { intros g Hg. unfold CalculateVolumeProperties.
    apply Qgeb_le in Hg. now rewrite Hg. }
  assert (Hnn : hull_Volume h < 0 -> 0 <= hull_Volume h').
  { intro Hneg. unfold h', CalculateVolumeProperties.
    destruct (Qgeb (hull_Volume h) 0) eqn:Hg.
    - apply Qgeb_le in Hg. exfalso. apply (Qlt_not_le _ _ Hneg Hg).
    - pose proof (@volume_loop_nonneg (hull_points h) (m_TriangleIndices h)
                    (length (m_TriangleIndices h)) 3 (length (m_TriangleIndices h))
                    (0, V3.zero) (Qle_refl 0)) as Hsix.
      destruct (volume_loop _ _ _ _ _ _) as [sixVolume massCenterSum].
      cbn [fst] in Hsix.
      destruct (Qgtb ((1 / 6) * sixVolume) 0).
      + cbn [hull_Volume]. now apply sixth_nonneg.
      + destruct (btConvexHullShape_getAabb E _ _). cbn [hull_Volume].
        now apply sixth_nonneg. }
  split; [exact Hnn |]. split; [apply Hkeep |].
  intro Hneg. apply Hkeep. now apply Hnn.
Qed.

Lemma hull_volume_properties_computed_once_witness :
  hull_Volume tetrahedron_hull < 0 /\
  CalculateVolumeProperties sample_externals
    (CalculateVolumeProperties sample_externals tetrahedron_hull)
  = CalculateVolumeProperties sample_externals tetrahedron_hull.
Proof.
  assert (H : hull_Volume tetrahedron_hull < 0) by reflexivity.
  split; [exact H |].
  exact (proj2 (proj2 (hull_volume_properties_computed_once sample_externals
                         tetrahedron_hull)) H).
Defined.

Lemma Hull_GetMassCenter_first_query E h n :
  hull_Volume h < 0 ->
  length (m_TriangleIndices h) = (3 * n)%nat ->
  0 < Hull_GetVolume E h ->
  Hull_GetMassCenter E h
  =v centerSum_all (hull_points h) (m_TriangleIndices h)
     /s sixVolume_all (hull_points h) (m_TriangleIndices h).
Proof.
  intros Hfirst Hlen.
  pose proof (@volume_loop_all (hull_points h) (m_TriangleIndices h) n Hlen) as Hall.
  cbv zeta in Hall.
  unfold Hull_GetVolume, Hull_GetMassCenter, CalculateVolumeProperties.
  assert (Hg : Qgeb (hull_Volume h) 0 = false).
  { destruct (Qgeb (hull_Volume h) 0) eqn:Hg; [| reflexivity].
    apply Qgeb_le in Hg. exfalso. apply (Qlt_not_le _ _ Hfirst Hg). }
  rewrite Hg.
  destruct (volume_loop _ _ _ _ _ _) as [sixVolume massCenterSum].
  destruct Hall as [Hsix Hsum]. cbn [fst snd] in Hsix, Hsum.
  destruct (Qgtb ((1 / 6) * sixVolume) 0) eqn:Hpos.
  - cbn [hull_Volume hull_MassCenter]. intros _. now apply eqv_div.
  - destruct (btConvexHullShape_getAabb E _ _). cbn [hull_Volume hull_MassCenter].
    intro Hlt. apply Qltb_ge in Hpos. exfalso. apply (Qlt_not_le _ _ Hlt Hpos).
Qed.

Lemma sixth_pos s : 0 < (1 / 6) * s -> 0 < s.
Proof.
  intro H. assert (E : s == 6 * ((1 / 6) * s)) by field.
  rewrite E. apply Qmult_lt_0_compat; [reflexivity | exact H].
Qed.

Lemma triple_zero_first a x y : V3.triple (a -v a) x y == 0.
Proof. unfold V3.triple, V3.sub. simpl. ring. Qed.

(** X2: for any four points, the hull over the four faces of their
    tetrahedron has the volume of the tetrahedron, a sixth of the absolute
    triple product of its edges at the first point, and, when that is
    positive, its mass centre is the mean of the four points. *)
Theorem tetrahedron_volume_and_center (E : Externals) (a b c d : btVector3) :
  let h := tetrahedron_on E a b c d in
  Hull_GetVolume E h == (1 / 6) * Qabs (V3.triple (b -v a) (c -v a) (d -v a)) /\
  (0 < Hull_GetVolume E h -> Hull_GetMassCenter E h =v (1 # 4) *s (a +v b +v c +v d)).
Proof.
  intro h.
  assert (Hfirst : hull_Volume h < 0) by reflexivity.
  assert (Hlen : length (m_TriangleIndices h) = (3 * 4)%nat) by reflexivity.
  set (T := V3.triple (b -v a) (c -v a) (d -v a)).
  assert (Hsix : sixVolume_all (hull_points h) (m_TriangleIndices h) == Qabs T).
  { unfold sixVolume_all, triangle_starts, h, tetrahedron_on, CPhysConvex_Hull_new.
    cbn [hull_points m_TriangleIndices tetrahedron_faces firstn Nat.mul Nat.add length
         Nat.div Nat.divmod fst seq map fold_left].
    unfold tetrahedronSixVolume, point_at, btFabs. cbn [nth Nat.add].
    rewrite !triple_zero_first. fold T. simpl (Qabs 0). ring. }
  split.
  - rewrite (@Hull_GetVolume_first_query E h 4 Hfirst Hlen). now rewrite Hsix.
  - intro Hpos.
    pose proof (@Hull_GetMassCenter_first_query E h 4 Hfirst Hlen Hpos) as Hc.
    assert (HT : 0 < Qabs T).
    { rewrite (@Hull_GetVolume_first_query E h 4 Hfirst Hlen), Hsix in Hpos.
      now apply sixth_pos. }
    assert (Hsum : centerSum_all (hull_points h) (m_TriangleIndices h)
                   =v ((1 # 4) * Qabs T) *s (a +v b +v c +v d)).
    { unfold centerSum_all, triangle_starts, h, tetrahedron_on, CPhysConvex_Hull_new.
      cbn [hull_points m_TriangleIndices tetrahedron_faces firstn Nat.mul Nat.add length
           Nat.div Nat.divmod fst seq map fold_left].
      unfold tetrahedronCenterTerm, tetrahedronSixVolume, point_at, btFabs.
      cbn [nth Nat.add]. fold T.
      unfold V3.eqv, V3.add, V3.scale, V3.zero. cbn [getX getY getZ].
      rewrite !triple_zero_first. simpl (Qabs 0).
      repeat split; ring. }
    destruct Hc as (Hx & Hy & Hz). destruct Hsum as (Sx & Sy & Sz).
    unfold V3.eqv, V3.div in *. cbn [getX getY getZ] in *.
    rewrite Hx, Hy, Hz, Sx, Sy, Sz, !Hsix.
    unfold V3.scale, V3.add. cbn [getX getY getZ].
    assert (Hne : ~ Qabs T == 0) by lra.
    repeat split; field; exact Hne.
Qed.

Lemma tetrahedron_volume_and_center_witness :
  0 < Hull_GetVolume sample_externals
        (tetrahedron_on sample_externals (mkV 0 0 0) (mkV 1 0 0) (mkV 0 1 0) (mkV 0 0 1)) /\
  Hull_GetMassCenter sample_externals
    (tetrahedron_on sample_externals (mkV 0 0 0) (mkV 1 0 0) (mkV 0 1 0) (mkV 0 0 1))
  =v (1 # 4) *s (mkV 0 0 0 +v mkV 1 0 0 +v mkV 0 1 0 +v mkV 0 0 1).
Proof.
  assert (H : 0 < Hull_GetVolume sample_externals
                    (tetrahedron_on sample_externals (mkV 0 0 0) (mkV 1 0 0)
                                    (mkV 0 1 0) (mkV 0 0 1))) by reflexivity.
  split; [exact H |].
  exact (proj2 (tetrahedron_volume_and_center sample_externals (mkV 0 0 0) (mkV 1 0 0)
                  (mkV 0 1 0) (mkV 0 0 1)) H).
Defined.

Lemma Forall_nth_in (P : nat -> Prop) l j :
  Forall P l -> (j < length l)%nat -> P (nth j l O).
Proof.
  intros H Hj. rewrite Forall_forall in H. apply H. now apply nth_In.
Qed.

Lemma point_at_translate t points indices i :
  (nth i indices O < length points)%nat ->
  point_at (map (fun p => p +v t) points) indices i = point_at points indices i +v t.
Proof.
  intro H. unfold point_at.
  rewrite nth_indep with (d' := V3.zero +v t) by (now rewrite length_map).
  apply (map_nth (fun p => p +v t)).
Qed.

Lemma triple_translate p0 p1 p2 r t :
  V3.triple ((p0 +v t) -v (r +v t)) ((p1 +v t) -v (r +v t)) ((p2 +v t) -v (r +v t))
  == V3.triple (p0 -v r) (p1 -v r) (p2 -v r).
Proof. unfold V3.triple, V3.sub, V3.add. simpl. ring. Qed.

Section Translation.

Variables (t : btVector3) (h : CPhysConvex_Hull) (n : nat).
Hypothesis Hlen : length (m_TriangleIndices h) = (3 * n)%nat.
Hypothesis Hrange : indices_in_range h.

Let points := hull_points h.
Let indices := m_TriangleIndices h.
Let points' := map (fun p => p +v t) points.

Lemma start_in_range i :
  In i (triangle_starts indices) ->
  point_at points' indices 0 = point_at points indices 0 +v t /\
  point_at points' indices i = point_at points indices i +v t /\
  point_at points' indices (i + 1) = point_at points indices (i + 1) +v t /\
  point_at points' indices (i + 2) = point_at points indices (i + 2) +v t.
Proof.
  unfold triangle_starts. intro Hi. apply in_map_iff in Hi.
  destruct Hi as (k & <- & Hk). apply in_seq in Hk.
  unfold indices in Hk. rewrite Hlen in Hk.
  replace (3 * n / 3)%nat with n in Hk by (rewrite Nat.mul_comm; now rewrite Nat.div_mul).
  repeat split; apply point_at_translate;
    apply (@Forall_nth_in (fun i => (i < length (hull_points h))%nat));
    try exact Hrange; unfold indices; rewrite Hlen; lia.
Qed.

Lemma six_translate i :
  In i (triangle_starts indices) ->
  tetrahedronSixVolume points' indices i == tetrahedronSixVolume points indices i.
Proof.
  intro Hi. destruct (@start_in_range i Hi) as (H0 & H1 & H2 & H3).
  unfold tetrahedronSixVolume, btFabs. rewrite H0, H1, H2, H3.
  apply Qabs_wd. apply triple_translate.
Qed.

Lemma center_translate i :
  In i (triangle_starts indices) ->
  tetrahedronCenterTerm points' indices i
  =v tetrahedronCenterTerm points indices i +v tetrahedronSixVolume points indices i *s t.
Proof.
  intro Hi. pose proof (six_translate i Hi) as Hs.
  destruct (@start_in_range i Hi) as (H0 & H1 & H2 & H3).
  unfold tetrahedronCenterTerm. rewrite H0, H1, H2, H3.
  unfold V3.eqv, V3.scale, V3.add. cbn [getX getY getZ].
  rewrite Hs. repeat split; ring.
Qed.

Lemma fold_six_translate l :
  incl l (triangle_starts indices) ->
  forall a a', a == a' ->
    fold_left (fun sum i => sum + tetrahedronSixVolume points' indices i) l a
    == fold_left (fun sum i => sum + tetrahedronSixVolume points indices i) l a'.
Proof.
  induction l as [| i l IH]; intros Hin a a' Ha; simpl; [exact Ha |].
  apply IH; [intros x Hx; apply Hin; now right |].
  rewrite Ha, six_translate by (apply Hin; now left). reflexivity.
Qed.

Lemma fold_center_translate l :
  incl l (triangle_starts indices) ->
  forall a a' s,
    a =v a' +v s *s t ->
    fold_left (fun sum i => sum +v tetrahedronCenterTerm points' indices i) l a
    =v fold_left (fun sum i => sum +v tetrahedronCenterTerm points indices i) l a'
       +v fold_left (fun sum i => sum + tetrahedronSixVolume points indices i) l s *s t.
Proof.
  induction l as [| i l IH]; intros Hin a a' s Ha; simpl; [exact Ha |].
  apply IH; [intros x Hx; apply Hin; now right |].
  destruct (center_translate i (Hin i (or_introl eq_refl))) as (Cx & Cy & Cz).
  destruct Ha as (Ax & Ay & Az).
  unfold V3.eqv, V3.add, V3.scale in *. cbn [getX getY getZ] in *.
  rewrite Ax, Ay, Az, Cx, Cy, Cz. repeat split; ring.
Qed.

End Translation.

(** X3: moving every point of a hull by the same vector leaves the volume
    as it is and, when the volume is positive, moves the mass centre by
    that vector (the hull has whole triangles and every index names a
    point). *)
Theorem hull_translation (E : Externals) (h : CPhysConvex_Hull) (t : btVector3) (n : nat) :
  hull_Volume h < 0 ->
  length (m_TriangleIndices h) = (3 * n)%nat ->
  indices_in_range h ->
  Hull_GetVolume E (translate_hull t h) == Hull_GetVolume E h /\
  (0 < Hull_GetVolume E h ->
   Hull_GetMassCenter E (translate_hull t h) =v Hull_GetMassCenter E h +v t).
Proof.
  intros Hfirst Hlen Hrange.
  assert (Hsix : sixVolume_all (hull_points (translate_hull t h))
                               (m_TriangleIndices (translate_hull t h))
                 == sixVolume_all (hull_points h) (m_TriangleIndices h)).
  { unfold sixVolume_all. cbn [translate_hull hull_points m_TriangleIndices].
    apply (@fold_six_translate t h n Hlen Hrange); [apply incl_refl | reflexivity]. }
  assert (Hvol : Hull_GetVolume E (translate_hull t h) == Hull_GetVolume E h).
  { rewrite (@Hull_GetVolume_first_query E (translate_hull t h) n Hfirst Hlen).
    rewrite (@Hull_GetVolume_first_query E h n Hfirst Hlen).
    now rewrite Hsix. }
  split; [exact Hvol |].
  intro Hpos.
  assert (Hpos' : 0 < Hull_GetVolume E (translate_hull t h)) by now rewrite Hvol.
  pose proof (@Hull_GetMassCenter_first_query E h n Hfirst Hlen Hpos) as (Cx & Cy & Cz).
  pose proof (@Hull_GetMassCenter_first_query E (translate_hull t h) n Hfirst Hlen Hpos')
    as (Tx & Ty & Tz).
  assert (Hsum : centerSum_all (hull_points (translate_hull t h))
                               (m_TriangleIndices (translate_hull t h))
                 =v centerSum_all (hull_points h) (m_TriangleIndices h)
                    +v sixVolume_all (hull_points h) (m_TriangleIndices h) *s t).
  { unfold centerSum_all, sixVolume_all.
    cbn [translate_hull hull_points m_TriangleIndices].
    apply (@fold_center_translate t h n Hlen Hrange); [apply incl_refl |].
    unfold V3.eqv, V3.add, V3.scale, V3.zero. cbn [getX getY getZ].
    repeat split; ring. }
  destruct Hsum as (Sx & Sy & Sz).
  assert (Hne : ~ sixVolume_all (hull_points h) (m_TriangleIndices h) == 0).
  { rewrite (@Hull_GetVolume_first_query E h n Hfirst Hlen) in Hpos.
    apply sixth_pos in Hpos. lra. }
  unfold V3.eqv, V3.div, V3.add, V3.scale in *. cbn [getX getY getZ] in *.
  rewrite Tx, Ty, Tz, Cx, Cy, Cz, Sx, Sy, Sz, !Hsix.
  repeat split; field; exact Hne.
Qed.

Lemma hull_translation_witness :
  hull_Volume tetrahedron_hull < 0 /\
  length (m_TriangleIndices tetrahedron_hull) = (3 * 4)%nat /\
  indices_in_range tetrahedron_hull /\
  Hull_GetVolume sample_externals (translate_hull (mkV 1 2 3) tetrahedron_hull)
  == Hull_GetVolume sample_externals tetrahedron_hull.
Proof.
  assert (H1 : hull_Volume tetrahedron_hull < 0) by reflexivity.
  assert (H2 : length (m_TriangleIndices tetrahedron_hull) = (3 * 4)%nat) by reflexivity.
  assert (H3 : indices_in_range tetrahedron_hull).
  { unfold indices_in_range. simpl. repeat (constructor; [lia |]). constructor. }
  split; [exact H1 |]. split; [exact H2 |]. split; [exact H3 |].
  exact (proj1 (@hull_translation sample_externals tetrahedron_hull (mkV 1 2 3) 4
                  H1 H2 H3)).
Defined.

(** ** Offsetting an inertia *)




(** ** Contents of a decoded hull *)

Lemma bitfield_range lo width v :
  (0 <= width)%Z -> (0 <= bitfield lo width v < 2 ^ width)%Z.
Proof.
  intro H. unfold bitfield. rewrite Z.land_ones by assumption.
  apply Z.mod_pos_bound. now apply Z.pow_pos_nonneg.
Qed.

Lemma set_material_middle l1 x l2 m :
  set_material (l1 ++ x :: l2) (length l1) m = l1 ++ m :: l2.
Proof. induction l1 as [| y l1 IH]; simpl; [reflexivity | now rewrite IH]. Qed.

Lemma set_material_at l1 x l2 m k :
  k = length l1 -> set_material (l1 ++ x :: l2) k m = l1 ++ m :: l2.
Proof. intros ->. apply set_material_middle. Qed.

Lemma forallb_zero_repeat l :
  forallb (Z.eqb 0) l = true -> l = repeat 0%Z (length l).
Proof.
  induction l as [| x l IH]; cbn [forallb length repeat]; [reflexivity |].
  intro H. apply andb_true_iff in H. destruct H as [Hx Hl].
  apply Z.eqb_eq in Hx. subst x. now rewrite <- IH.
Qed.

Section LedgeContents.

Variables (host : ByteOrder) (byteswap : CByteswap) (mem : Memory) (ledge : Z).
Variable n : nat.

Let mats (k : nat) := map (triangle_material host byteswap mem ledge) (seq 0 k).

Lemma ledge_triangle_loop_spec :
  forall k, (k <= n)%nat ->
    fold_left (ledge_triangle_step host byteswap mem (ledge + 16) n) (seq 0 k) ([], [])
    = (flat_map (triangle_corners host byteswap mem ledge) (seq 0 k),
       if forallb (Z.eqb 0) (mats k) then [] else mats k ++ repeat 0%Z (n - k)).
Proof.
  induction k as [| k IH]; intro Hk; [reflexivity |].
  rewrite seq_S, fold_left_app, IH by lia. cbn [fold_left Nat.add].
  unfold mats. rewrite seq_S, map_app, forallb_app, flat_map_app. cbn [map flat_map Nat.add].
  fold (mats k). rewrite app_nil_r.
  unfold ledge_triangle_step. cbn [fst snd].
  set (T := swap_triangle host byteswap mem (ledge + 16 + 16 * Z.of_nat k)%Z).
  change (triangle_material host byteswap mem ledge k) with (material_index T).
  assert (Hc : triangle_corners host byteswap mem ledge k
               = let '(e0, e1, e2) := c_three_edges T in
                 [Z.to_nat (start_point_index e0); Z.to_nat (start_point_index e1);
                  Z.to_nat (start_point_index e2)]) by reflexivity.
  rewrite Hc. clear Hc.
  destruct (c_three_edges T) as [[e0 e1] e2].
  pose proof (@bitfield_range 24 7
                (swapped_field host byteswap mem (ledge + 16 + 16 * Z.of_nat k)%Z 4)
                ltac:(lia)) as Hm.
  change (bitfield 24 7 _) with (material_index T) in Hm.
  cbn [forallb]. rewrite andb_true_r.
  destruct (0 <? material_index T)%Z eqn:Hpos.
  - assert (Hz : (0 =? material_index T)%Z = false) by (apply Z.eqb_neq; apply Z.ltb_lt in Hpos; lia).
    rewrite Hz, andb_false_r. f_equal.
    destruct (forallb (Z.eqb 0) (mats k)) eqn:Hall.
    + pose proof (@forallb_zero_repeat _ Hall) as Hrep.
      unfold mats in Hrep at 2. rewrite length_map, length_seq in Hrep.
      assert (Hn : repeat 0%Z n = repeat 0%Z k ++ 0%Z :: repeat 0%Z (n - S k)).
      { replace n with (k + S (n - S k))%nat at 1 by lia.
        now rewrite repeat_app. }
      rewrite Hn.
      assert (Hs : set_material (repeat 0%Z k ++ 0%Z :: repeat 0%Z (n - S k)) k
                                (material_index T)
                   = repeat 0%Z k ++ material_index T :: repeat 0%Z (n - S k)).
      { apply set_material_at. now rewrite repeat_length. }
      rewrite Hs, <- Hrep, <- app_assoc. reflexivity.
    + destruct (mats k ++ repeat 0%Z (n - k)) as [| y ys] eqn:Hl.
      * exfalso. apply app_eq_nil in Hl. destruct Hl as [Hl _].
        rewrite Hl in Hall. discriminate.
      * rewrite <- Hl.
        replace (n - k)%nat with (S (n - S k)) by lia. cbn [repeat].
        assert (Hs : set_material (mats k ++ 0%Z :: repeat 0%Z (n - S k)) k
                                  (material_index T)
                     = mats k ++ material_index T :: repeat 0%Z (n - S k)).
        { apply set_material_at. unfold mats. now rewrite length_map, length_seq. }
        rewrite Hs, <- app_assoc. reflexivity.
  - assert (Hz : material_index T = 0%Z) by (apply Z.ltb_ge in Hpos; lia).
    rewrite Hz. cbn [Z.eqb]. rewrite andb_true_r. f_equal.
    destruct (forallb (Z.eqb 0) (mats k)); [reflexivity |].
    replace (n - k)%nat with (S (n - S k)) by lia. cbn [repeat].
    rewrite <- app_assoc. reflexivity.
Qed.

End LedgeContents.

Lemma triangle_corners_shape host byteswap mem ledge t :
  length (triangle_corners host byteswap mem ledge t) = 3%nat /\
  Forall (fun i => (Z.of_nat i < 65536)%Z) (triangle_corners host byteswap mem ledge t).
Proof.
  unfold triangle_corners, swap_triangle. cbn [c_three_edges].
  split; [reflexivity |].
  assert (H : forall a, (Z.of_nat (Z.to_nat (start_point_index
                                               (swap_edge host byteswap mem a)))
                         < 65536)%Z).
  { intro a. unfold swap_edge. cbn [start_point_index].
    pose proof (@bitfield_range 0 16 (swapped_field host byteswap mem a 4) ltac:(lia)).
    change (2 ^ 16)%Z with 65536%Z in H. lia. }
  repeat constructor; apply H.
Qed.

Lemma flat_map_corners host byteswap mem ledge l :
  length (flat_map (triangle_corners host byteswap mem ledge) l) = (3 * length l)%nat /\
  Forall (fun i => (Z.of_nat i < 65536)%Z) (flat_map (triangle_corners host byteswap mem ledge) l).
Proof.
  induction l as [| t l [IHl IHf]]; [split; [reflexivity | constructor] |].
  destruct (triangle_corners_shape host byteswap mem ledge t) as [Hl Hf].
  cbn [flat_map length]. rewrite length_app, Hl, IHl.
  split; [lia | apply Forall_app; split; assumption].
Qed.

Lemma triangle_material_range host byteswap mem ledge t :
  (0 <= triangle_material host byteswap mem ledge t < 128)%Z.
Proof.
  unfold triangle_material, swap_triangle. cbn [material_index].
  apply (@bitfield_range 24 7). lia.
Qed.

(** X5: a hull decoded from a ledge holds, in order, the three start
    point indices of every triangle, each below 65536; its materials are
    empty when no triangle carries one and otherwise list the material of
    every triangle, each below 128; it has one plane per triangle exactly
    when it has materials; and its volume is still to be calculated. *)
Theorem ledge_hull_contents (host : ByteOrder) (byteswap : CByteswap) (mem : Memory)
    (E : Externals) (ledge : Z) (h : CPhysConvex_Hull) :
  CreateFromIVPCompactLedge host byteswap mem E ledge = Some h ->
  let n := Z.to_nat (n_triangles (swap_ledge host byteswap mem ledge)) in
  let materials := map (triangle_material host byteswap mem ledge) (seq 0 n) in
  let overrides := negb (forallb (Z.eqb 0) materials) in
  m_TriangleIndices h = flat_map (triangle_corners host byteswap mem ledge) (seq 0 n) /\
  length (m_TriangleIndices h) = (3 * n)%nat /\
  Forall (fun i => (Z.of_nat i < 65536)%Z) (m_TriangleIndices h) /\
  m_TriangleMaterials h = (if overrides then materials else []) /\
  Forall (fun m => (0 <= m < 128)%Z) (m_TriangleMaterials h) /\
  length (m_TrianglePlanes h) = (if overrides then n else 0%nat) /\
  hull_Volume h = (- (1))%Q.
Proof.
  intros Hh n materials overrides.
  unfold CreateFromIVPCompactLedge in Hh.
  destruct (_ || _); [discriminate |]. injection Hh as <-.
  unfold CPhysConvex_Hull_of_ledge. fold n.
  rewrite (@ledge_triangle_loop_spec host byteswap mem ledge n n (le_n n)).
  rewrite Nat.sub_diag, app_nil_r. fold materials.
  destruct (flat_map_corners host byteswap mem ledge (seq 0 n)) as [Hlen Hfor].
  rewrite length_seq in Hlen.
  assert (Hrange : Forall (fun m => (0 <= m < 128)%Z) materials).
  { unfold materials. apply Forall_forall. intros m Hm. apply in_map_iff in Hm.
    destruct Hm as (t & <- & _). apply triangle_material_range. }
  unfold overrides.
  destruct (forallb (Z.eqb 0) materials) eqn:Hall; cbn [negb].
  - cbn [m_TriangleIndices m_TriangleMaterials m_TrianglePlanes hull_Volume length].
    repeat split; try assumption. constructor.
  - destruct materials as [| m ms] eqn:Hmat; [discriminate |].
    unfold CalculateTrianglePlanes.
    cbn [m_TriangleIndices m_TriangleMaterials m_TrianglePlanes hull_Volume hull_points].
    repeat split; try assumption.
    rewrite length_map, length_seq, Hlen.
    rewrite Nat.mul_comm. apply Nat.div_mul. discriminate.
Qed.

Lemma ledge_hull_contents_witness :
  exists h,
    CreateFromIVPCompactLedge LittleEndian (mkByteswap false) native_ledge
                              sample_externals 0 = Some h /\
    m_TriangleMaterials h = [3%Z].
Proof.
  destruct (CreateFromIVPCompactLedge LittleEndian (mkByteswap false) native_ledge
                                      sample_externals 0) as [h |] eqn:Hh.
  - exists h. split; [reflexivity |].
    exact (proj1 (proj2 (proj2 (proj2
             (@ledge_hull_contents LittleEndian (mkByteswap false) native_ledge
                                   sample_externals 0 h Hh))))).
  - vm_compute in Hh. discriminate Hh.
Defined.

(** ** Byte order of a whole ledge *)

(** X6: when a buffer is the image of another with the bytes of every
    field of a ledge reversed, decoding it with swapping on yields the
    points, triangle indices and materials that decoding the other with
    swapping off yields, on either kind of machine. *)
Theorem foreign_buffer_same_geometry (host : ByteOrder) (native foreign : Memory)
    (ledge : Z) (E : Externals) :
  foreign_image host native foreign ledge ->
  option_map geometry
    (CreateFromIVPCompactLedge host (mkByteswap true) foreign E ledge)
  = option_map geometry
      (CreateFromIVPCompactLedge host (mkByteswap false) native E ledge).
Proof. intro H. now apply foreign_ledge_same_geometry. Qed.

Lemma foreign_buffer_same_geometry_witness :
  foreign_image LittleEndian native_ledge foreign_ledge 0 /\
  option_map geometry
    (CreateFromIVPCompactLedge LittleEndian (mkByteswap true) foreign_ledge
                               sample_externals 0)
  = option_map geometry
      (CreateFromIVPCompactLedge LittleEndian (mkByteswap false) native_ledge
                                 sample_externals 0).
Proof.
  split; [exact sample_foreign_image |].
  exact (@foreign_buffer_same_geometry LittleEndian native_ledge foreign_ledge 0
           sample_externals sample_foreign_image).
Defined.

(** ** Ledge trees *)

Lemma add_ledges_app host byteswap mem E l1 :
  forall c l2,
    add_ledges host byteswap mem E c (l1 ++ l2)
    = match add_ledges host byteswap mem E c l1 with
      | Done c' => add_ledges host byteswap mem E c' l2
      | NullDereference => NullDereference
      | OutOfFuel => OutOfFuel
      end.
Proof.
  induction l1 as [| ledge l1 IH]; intros c l2; [reflexivity |].
  cbn [app add_ledges].
  destruct (CreateFromIVPCompactLedge host byteswap mem E ledge); [apply IH | reflexivity].
Qed.

Lemma AddIVPCompactLedgetreeNode_add_ledges (host : ByteOrder) (byteswap : CByteswap)
    (mem : Memory) (E : Externals) (t : LedgeTree) :
  forall (node : Z) (c : CPhysCollide_Compound) (fuel : nat),
    laid_out host byteswap mem node t ->
    (tree_depth t < fuel)%nat ->
    AddIVPCompactLedgetreeNode fuel host byteswap mem E c node
    = add_ledges host byteswap mem E c (tree_leaves t) /\
    AddIVPCompactLedgetreeNode fuel host byteswap mem E c node <> OutOfFuel.
Proof.
  induction t as [ledge | l IHl r IHr]; intros node c fuel Hlaid Hfuel.
  - destruct fuel as [| fuel]; [lia |].
    destruct Hlaid as [Hzero Hledge].
    cbn [AddIVPCompactLedgetreeNode tree_leaves add_ledges].
    rewrite Hzero, <- Hledge. cbn [Z.eqb].
    destruct (CreateFromIVPCompactLedge host byteswap mem E ledge);
      split; [reflexivity | discriminate | reflexivity | discriminate].
  - destruct fuel as [| fuel]; [lia |].
    destruct Hlaid as (Hnz & Hl & Hr).
    cbn [tree_depth] in Hfuel.
    cbn [AddIVPCompactLedgetreeNode tree_leaves].
    apply Z.eqb_neq in Hnz. rewrite Hnz.
    destruct (IHl (node + 28)%Z c fuel Hl ltac:(lia)) as [El Nl].
    rewrite add_ledges_app, El.
    destruct (add_ledges host byteswap mem E c (tree_leaves l)) as [c' | |].
    + apply IHr; [exact Hr | lia].
    + split; [reflexivity | discriminate].
    + rewrite El in Nl. contradiction.
Qed.

(** X7: on a buffer that holds a ledge tree, with fuel beyond the depth
    of the tree, the constructor from a ledge tree does what adding the
    ledges of the leaves from left to right to the empty compound does: it
    ends with all of them added, or by a call through a null pointer at
    the first leaf whose ledge yields no hull; it never runs out of fuel. *)
Theorem ledgetree_decoded_left_to_right (host : ByteOrder) (byteswap : CByteswap)
    (mem : Memory) (E : Externals) (t : LedgeTree) (root : Z)
    (massCenter inertia : btVector3) (fuel : nat) :
  laid_out host byteswap mem root t ->
  (tree_depth t < fuel)%nat ->
  Compound_of_ledgetree fuel host byteswap mem E root massCenter inertia
  = add_ledges host byteswap mem E
      (mkCompound btCompoundShape.empty (- (1)) massCenter inertia
                  COLLIDE_OWNER_GAME None)
      (tree_leaves t) /\
  Compound_of_ledgetree fuel host byteswap mem E root massCenter inertia <> OutOfFuel.
Proof.
  intros Hlaid Hfuel. unfold Compound_of_ledgetree.
  now apply AddIVPCompactLedgetreeNode_add_ledges.
Qed.

Lemma ledgetree_decoded_left_to_right_witness :
  laid_out LittleEndian (mkByteswap false) tree_buffer 0 sample_tree /\
  (tree_depth sample_tree < 2)%nat /\
  Compound_of_ledgetree 2 LittleEndian (mkByteswap false) tree_buffer sample_externals
                        0 V3.zero (mkV 1 1 1)
  = add_ledges LittleEndian (mkByteswap false) tree_buffer sample_externals
      (mkCompound btCompoundShape.empty (- (1)) V3.zero (mkV 1 1 1)
                  COLLIDE_OWNER_GAME None)
      (tree_leaves sample_tree).
Proof.
  assert (H1 : laid_out LittleEndian (mkByteswap false) tree_buffer 0 sample_tree).
  { cbn [laid_out sample_tree]. repeat split; vm_compute; try reflexivity; discriminate. }
  assert (H2 : (tree_depth sample_tree < 2)%nat) by (simpl; lia).
  split; [exact H1 |]. split; [exact H2 |].
  exact (proj1 (@ledgetree_decoded_left_to_right LittleEndian (mkByteswap false)
                  tree_buffer sample_externals sample_tree 0 V3.zero (mkV 1 1 1)
                  2 H1 H2)).
Defined.

Lemma add_ledges_all host byteswap mem E :
  forall ledges hulls c,
    map (CreateFromIVPCompactLedge host byteswap mem E) ledges = map Some hulls ->
    exists c',
      add_ledges host byteswap mem E c ledges = Done c' /\
      btCompoundShape.children (m_Shape c')
      = btCompoundShape.children (m_Shape c) ++ map (ledge_child (m_MassCenter c)) hulls /\
      m_Volume c' = m_Volume c /\ m_MassCenter c' = m_MassCenter c /\
      m_Inertia c' = m_Inertia c /\
      m_ObjectReferenceList c' = m_ObjectReferenceList c.
Proof.
  induction ledges as [| ledge ledges IH]; intros hulls c Hmap.
  - destruct hulls; [| discriminate]. exists c. cbn [add_ledges map].
    rewrite app_nil_r. repeat split.
  - destruct hulls as [| hull hulls]; [discriminate |].
    cbn [map] in Hmap. injection Hmap as Hhull Hrest.
    cbn [add_ledges]. rewrite Hhull.
    destruct (IH hulls (add_ledge_child E c hull) Hrest)
      as (c' & Hadd & Hch & Hv & Hm & Hi & Hr).
    exists c'. split; [exact Hadd |].
    cbn [add_ledge_child m_Shape m_Volume m_MassCenter m_Inertia m_ObjectReferenceList
         btCompoundShape.addChildShape btCompoundShape.children] in *.
    rewrite Hch, <- app_assoc. repeat split; assumption.
Qed.

Lemma add_ledges_rejected host byteswap mem E :
  forall ledges ledge c,
    In ledge ledges ->
    CreateFromIVPCompactLedge host byteswap mem E ledge = None ->
    add_ledges host byteswap mem E c ledges = NullDereference.
Proof.
  induction ledges as [| x ledges IH]; intros ledge c Hin Hnone; [contradiction |].
  cbn [add_ledges].
  destruct (CreateFromIVPCompactLedge host byteswap mem E x) as [hull |] eqn:Hx;
    [| reflexivity].
  destruct Hin as [-> | Hin]; [congruence |].
  now apply IH with (ledge := ledge).
Qed.

(** X8: when the ledge of every leaf of the tree yields a hull, the
    constructor from a ledge tree ends with a compound whose children are
    these hulls in the order of the leaves, each tagged [OWNER_COMPOUND]
    and placed at minus the given mass centre; the mass centre and the
    inertia are the given ones and the volume is still the sentinel -1. *)
Theorem ledgetree_compound_children (host : ByteOrder) (byteswap : CByteswap)
    (mem : Memory) (E : Externals) (t : LedgeTree) (root : Z)
    (massCenter inertia : btVector3) (fuel : nat) (hulls : list CPhysConvex_Hull) :
  laid_out host byteswap mem root t ->
  (tree_depth t < fuel)%nat ->
  map (CreateFromIVPCompactLedge host byteswap mem E) (tree_leaves t) = map Some hulls ->
  exists c,
    Compound_of_ledgetree fuel host byteswap mem E root massCenter inertia = Done c /\
    btCompoundShape.children (m_Shape c) = map (ledge_child massCenter) hulls /\
    length (btCompoundShape.children (m_Shape c)) = length (tree_leaves t) /\
    m_Volume c = - (1) /\ m_MassCenter c = massCenter /\ m_Inertia c = inertia.
Proof.
  intros Hlaid Hfuel Hmap. unfold Compound_of_ledgetree.
  rewrite (proj1 (@AddIVPCompactLedgetreeNode_add_ledges host byteswap mem E t root _
                    fuel Hlaid Hfuel)).
  destruct (@add_ledges_all host byteswap mem E (tree_leaves t) hulls
              (mkCompound btCompoundShape.empty (- (1)) massCenter inertia
                          COLLIDE_OWNER_GAME None) Hmap)
    as (c & Hadd & Hch & Hv & Hm & Hi & _).
  exists c. cbn [m_Shape m_Volume m_MassCenter m_Inertia btCompoundShape.children
                 btCompoundShape.empty app] in *.
  repeat split; try assumption.
  rewrite Hch, length_map.
  apply (f_equal (@length _)) in Hmap. rewrite !length_map in Hmap. now symmetry.
Qed.

Lemma ledgetree_compound_children_witness :
  exists hulls c,
    map (CreateFromIVPCompactLedge LittleEndian (mkByteswap false) tree_buffer
                                   sample_externals) (tree_leaves sample_tree)
    = map Some hulls /\
    Compound_of_ledgetree 2 LittleEndian (mkByteswap false) tree_buffer sample_externals
                          0 V3.zero (mkV 1 1 1) = Done c /\
    length (btCompoundShape.children (m_Shape c)) = 2%nat.
Proof.
  assert (H1 : laid_out LittleEndian (mkByteswap false) tree_buffer 0 sample_tree).
  { cbn [laid_out sample_tree]. repeat split; vm_compute; try reflexivity; discriminate. }
  assert (H2 : (tree_depth sample_tree < 2)%nat) by (simpl; lia).
  destruct (CreateFromIVPCompactLedge LittleEndian (mkByteswap false) tree_buffer
                                      sample_externals 84) as [h1 |] eqn:E1;
    [| vm_compute in E1; discriminate E1].
  destruct (CreateFromIVPCompactLedge LittleEndian (mkByteswap false) tree_buffer
                                      sample_externals 164) as [h2 |] eqn:E2;
    [| vm_compute in E2; discriminate E2].
  assert (H3 : map (CreateFromIVPCompactLedge LittleEndian (mkByteswap false) tree_buffer
                                              sample_externals) (tree_leaves sample_tree)
               = map Some [h1; h2]).
  { cbn [sample_tree tree_leaves app map]. now rewrite E1, E2. }
  destruct (@ledgetree_compound_children LittleEndian (mkByteswap false) tree_buffer
              sample_externals sample_tree 0 V3.zero (mkV 1 1 1) 2 [h1; h2] H1 H2 H3)
    as (c & Hc & _ & Hlen & _).
  exists [h1; h2], c. split; [exact H3 |]. split; [exact Hc | exact Hlen].
Defined.

(** X9: when the ledge of some leaf of the tree yields no hull (fewer
    than three points, or no triangle), the constructor from a ledge tree
    ends by calling [SetOwner] through the null pointer it got. *)
Theorem ledgetree_rejected_leaf_null_dereference (host : ByteOrder)
    (byteswap : CByteswap) (mem : Memory) (E : Externals) (t : LedgeTree) (root : Z)
    (massCenter inertia : btVector3) (fuel : nat) (ledge : Z) :
  laid_out host byteswap mem root t ->
  (tree_depth t < fuel)%nat ->
  In ledge (tree_leaves t) ->
  CreateFromIVPCompactLedge host byteswap mem E ledge = None ->
  Compound_of_ledgetree fuel host byteswap mem E root massCenter inertia
  = NullDereference.
Proof.
  intros Hlaid Hfuel Hin Hnone. unfold Compound_of_ledgetree.
  rewrite (proj1 (@AddIVPCompactLedgetreeNode_add_ledges host byteswap mem E t root _
                    fuel Hlaid Hfuel)).
  now apply add_ledges_rejected with (ledge := ledge).
Qed.

Lemma ledgetree_rejected_leaf_null_dereference_witness :
  laid_out LittleEndian (mkByteswap false) empty_leaf_buffer 0 (TreeLeaf 28) /\
  CreateFromIVPCompactLedge LittleEndian (mkByteswap false) empty_leaf_buffer
                            sample_externals 28 = None /\
  Compound_of_ledgetree 1 LittleEndian (mkByteswap false) empty_leaf_buffer
                        sample_externals 0 V3.zero (mkV 1 1 1) = NullDereference.
Proof.
  assert (H1 : laid_out LittleEndian (mkByteswap false) empty_leaf_buffer 0 (TreeLeaf 28)).
  { cbn [laid_out]. split; vm_compute; reflexivity. }
  assert (H2 : CreateFromIVPCompactLedge LittleEndian (mkByteswap false) empty_leaf_buffer
                                         sample_externals 28 = None)
    by (vm_compute; reflexivity).
  split; [exact H1 |]. split; [exact H2 |].
  exact (@ledgetree_rejected_leaf_null_dereference LittleEndian (mkByteswap false)
           empty_leaf_buffer sample_externals (TreeLeaf 28) 0 V3.zero (mkV 1 1 1) 1 28
           H1 (le_n 1) (or_introl eq_refl) H2).
Defined.

(** ** Volume of a compound *)

Lemma Hull_GetVolume_nonneg E h : 0 <= Hull_GetVolume E h.
Proof.
  unfold Hull_GetVolume, CalculateVolumeProperties.
  destruct (Qgeb (hull_Volume h) 0) eqn:Hg; [now apply Qgeb_le in Hg |].
  pose proof (@volume_loop_nonneg (hull_points h) (m_TriangleIndices h)
                (length (m_TriangleIndices h)) 3 (length (m_TriangleIndices h))
                (0, V3.zero) (Qle_refl 0)) as Hsix.
  destruct (volume_loop _ _ _ _ _ _) as [sixVolume massCenterSum].
  cbn [fst] in Hsix.
  destruct (Qgtb ((1 / 6) * sixVolume) 0).
  - cbn [hull_Volume]. now apply sixth_nonneg.
  - destruct (btConvexHullShape_getAabb E _ _). cbn [hull_Volume].
    now apply sixth_nonneg.
Qed.

Lemma fold_volume_nonneg E l :
  (forall ch, In ch l -> 0 <= GetVolume E (child_convex ch)) ->
  forall a, 0 <= a ->
    0 <= fold_left (fun volume ch => volume + GetVolume E (child_convex ch)) l a.
Proof.
  induction l as [| ch l IH]; intros Hall a Ha; [exact Ha |].
  cbn [fold_left]. apply IH.
  - intros x Hx. apply Hall. now right.
  - pose proof (Hall ch (or_introl eq_refl)). lra.
Qed.

(** X10: for a compound none of whose boxes has a negative volume (so for
    every compound decoded from a ledge tree, which has hulls only), the
    volume reported is never negative: it is the cached volume when that
    is not the sentinel, and else the sum of the children's volumes, which
    is then stored, so that the next query returns it without summing
    again. *)
Theorem compound_volume_is_cached (E : Externals) (c : CPhysCollide_Compound) :
  boxes_nonnegative c ->
  let volume := fst (Compound_GetVolume E c) in
  let c' := snd (Compound_GetVolume E c) in
  (m_Volume c < 0 -> volume = children_volume E c /\ 0 <= volume) /\
  (0 <= m_Volume c -> volume = m_Volume c /\ c' = c) /\
  m_Volume c' = volume /\
  m_Shape c' = m_Shape c /\
  Compound_GetVolume E c' = (volume, c').
Proof.
  intros Hboxes volume c'.
  assert (Hsum : 0 <= children_volume E c).
  { unfold children_volume. apply fold_volume_nonneg; [| apply Qle_refl].
    intros ch Hch. unfold GetVolume.
    destruct (convex_shape (child_convex ch)) as [h | b] eqn:Hs.
    - apply Hull_GetVolume_nonneg.
    - now apply (Hboxes ch b). }
  unfold volume, c', Compound_GetVolume. fold (children_volume E c).
  destruct (Qltb (m_Volume c) 0) eqn:Hlt; cbn [fst snd].
  - apply Qltb_lt in Hlt.
    assert (Hkeep : Qltb (children_volume E c) 0 = false) by now apply Qltb_ge.
    split; [intros _; split; [reflexivity | exact Hsum] |].
    split; [intro H; exfalso; apply (Qlt_not_le _ _ Hlt H) |].
    split; [reflexivity |]. split; [reflexivity |].
    cbn [set_Volume m_Volume]. now rewrite Hkeep.
  - pose proof Hlt as Hge. apply Qltb_ge in Hge.
    split; [intro H; exfalso; apply (Qlt_not_le _ _ H Hge) |].
    split; [intros _; split; reflexivity |].
    split; [reflexivity |]. split; [reflexivity |].
    now rewrite Hlt.
Qed.

Lemma compound_volume_is_cached_witness :
  boxes_nonnegative (collinear_compound sample_externals) /\
  Compound_GetVolume sample_externals
    (snd (Compound_GetVolume sample_externals (collinear_compound sample_externals)))
  = (fst (Compound_GetVolume sample_externals (collinear_compound sample_externals)),
     snd (Compound_GetVolume sample_externals (collinear_compound sample_externals))).
Proof.
  assert (H : boxes_nonnegative (collinear_compound sample_externals)).
  { intros ch b Hin Hbox. vm_compute in Hin. destruct Hin as [<- | []].
    discriminate Hbox. }
  split; [exact H |].
  exact (proj2 (proj2 (proj2 (proj2
           (@compound_volume_is_cached sample_externals
              (collinear_compound sample_externals) H))))).
Defined.

(** ** A compound of one convex *)

Lemma GetVolume_absorb E c : GetVolume E (absorb c) = GetVolume E c.
Proof. unfold GetVolume. now rewrite absorb_shape. Qed.
Lemma GetInertia_absorb E c : GetInertia E (absorb c) = GetInertia E c.
Proof. unfold GetInertia. now rewrite absorb_shape. Qed.
Lemma GetOriginInCompound_absorb c : GetOriginInCompound (absorb c) = GetOriginInCompound c.
Proof. unfold GetOriginInCompound. now rewrite absorb_shape. Qed.

(** X11: the compound made of one convex of positive volume has that
    volume, has its mass centre where the convex has its own (origin in
    the compound plus local mass centre), holds the convex, retagged if it
    was game-owned, at minus its local mass centre, and has the inertia of
    the convex offset by that vector, in absolute value. *)
Theorem single_convex_compound (E : Externals) (convex : CPhysConvex) :
  0 < GetVolume E convex ->
  let c := fst (Compound_new E [convex]) in
  let offset := GetOriginInCompound convex -v m_MassCenter c in
  m_Volume c == GetVolume E convex /\
  m_MassCenter c =v GetOriginInCompound convex +v GetMassCenter E convex /\
  btCompoundShape.children (m_Shape c) = [mkChild (absorb convex) offset] /\
  offset =v V3.neg (GetMassCenter E convex) /\
  m_Inertia c =v V3.absolute (OffsetInertia (GetInertia E convex) offset false).
Proof.
  intros Hpos c offset.
  set (v := GetVolume E convex) in *.
  assert (Hvc : volume_and_center E [convex]
                = (0 + v, V3.zero +v v *s (GetOriginInCompound convex +v GetMassCenter E convex)))
    by reflexivity.
  assert (Hv0 : 0 < 0 + v) by lra.
  assert (Hcenter : compound_center E [convex]
                    = (V3.zero +v v *s (GetOriginInCompound convex +v GetMassCenter E convex))
                      /s (0 + v)).
  { unfold compound_center. rewrite Hvc.
    apply Qltb_lt in Hv0. unfold Qgtb. now rewrite Hv0. }
  assert (Hch := Compound_new_children E [convex]). fold c in Hch. cbn [map] in Hch.
  rewrite GetOriginInCompound_absorb in Hch.
  unfold c, Compound_new in *. cbn [fst] in *.
  match goal with |- context [CalculateInertia E ?c0] => set (c0' := c0) in * end.
  assert (Hnn : 0 <= m_Volume c0').
  { unfold c0'. cbn [m_Volume]. rewrite Hvc. cbn [fst]. lra. }
  destruct (@CalculateInertia_of_nonnegative E c0' Hnn) as [_ Hcalc].
  assert (Hmc : m_MassCenter (CalculateInertia E c0') = compound_center E [convex]).
  { rewrite Hcalc. reflexivity. }
  unfold offset. rewrite Hmc.
  assert (Hne : ~ v == 0) by lra.
  split; [| split; [| split; [| split]]].
  - rewrite Hcalc. unfold c0'. cbn [set_Inertia m_Volume]. rewrite Hvc. cbn [fst]. ring.
  - rewrite Hcenter. unfold V3.eqv, V3.div, V3.add, V3.scale, V3.zero.
    cbn [getX getY getZ]. repeat split; field; exact Hne.
  - rewrite Hcenter in Hch. rewrite Hcenter. exact Hch.
  - rewrite Hcenter. unfold V3.eqv, V3.div, V3.add, V3.sub, V3.scale, V3.zero, V3.neg.
    cbn [getX getY getZ]. repeat split; field; exact Hne.
  - rewrite CalculateInertia_shape in Hch.
    rewrite Hcalc. unfold set_Inertia. cbn [m_Inertia]. rewrite Hch.
    unfold inertia_sum. cbn [fold_left child_convex child_origin].
    rewrite GetVolume_absorb, GetInertia_absorb. fold v.
    unfold c0'. cbn [m_Volume]. rewrite Hvc. cbn [fst].
    set (I := OffsetInertia (GetInertia E convex)
                (GetOriginInCompound convex -v compound_center E [convex]) false).
    unfold V3.eqv, V3.absolute, V3.div, V3.add, V3.scale, V3.zero, btFabs.
    cbn [getX getY getZ]. repeat split; apply Qabs_wd; field; exact Hne.
Qed.

Lemma single_convex_compound_witness :
  0 < GetVolume sample_externals (unit_box (mkV 1 2 3)) /\
  m_Volume (fst (Compound_new sample_externals [unit_box (mkV 1 2 3)]))
  == GetVolume sample_externals (unit_box (mkV 1 2 3)).
Proof.
  assert (H : 0 < GetVolume sample_externals (unit_box (mkV 1 2 3))) by reflexivity.
  split; [exact H |].
  exact (proj1 (@single_convex_compound sample_externals (unit_box (mkV 1 2 3)) H)).
Defined.

(** ** Setting the mass centre twice *)

Lemma Compound_GetVolume_settled E shape volume massCenter i owner refs :
  Compound_GetVolume E (mkCompound shape volume massCenter i owner refs)
  = (settled_volume E shape volume,
     mkCompound shape (settled_volume E shape volume) massCenter i owner refs).
Proof.
  unfold Compound_GetVolume, settled_volume, shape_volume. cbn [m_Volume m_Shape].
  destruct (Qltb volume 0); reflexivity.
Qed.

Lemma CalculateInertia_settled E shape volume massCenter i owner refs :
  CalculateInertia E (mkCompound shape volume massCenter i owner refs)
  = mkCompound shape (settled_volume E shape volume) massCenter
               (settled_inertia E shape (settled_volume E shape volume)) owner refs.
Proof.
  unfold CalculateInertia, CalculateInertia_path.
  rewrite !Compound_GetVolume_settled. cbn [fst snd].
  rewrite Compound_GetVolume_settled. cbn [fst].
  unfold settled_inertia.
  destruct (Qgeb (settled_volume E shape (settled_volume E shape volume)) 0).
  - reflexivity.
  - cbn [m_Shape]. destruct (btCompoundShape.getAabb E shape). reflexivity.
Qed.

Lemma settled_volume_twice E shape shape' volume :
  shape_volume E shape' = shape_volume E shape ->
  settled_volume E shape' (settled_volume E shape volume)
  = settled_volume E shape' volume.
Proof.
  intro Hs. unfold settled_volume.
  destruct (Qltb volume 0) eqn:Hlt; [| now rewrite Hlt].
  rewrite Hs. now destruct (Qltb (shape_volume E shape) 0).
Qed.

Lemma SetMassCenter_compound E fuel next c massCenter c' calls :
  SetMassCenter E fuel next c massCenter = Some (c', calls) ->
  c' = CalculateInertia E
         (mkCompound
            (btCompoundShape.recalculateLocalAabb E
               (btCompoundShape.mk
                  (map (recenter massCenter) (btCompoundShape.children (m_Shape c)))
                  (btCompoundShape.localAabb (m_Shape c))))
            (m_Volume c) massCenter (m_Inertia c) (collide_Owner c)
            (m_ObjectReferenceList c)) /\
  NotifyObjectsOfMassCenterChange fuel next c (m_MassCenter c) = Some calls.
Proof.
  unfold SetMassCenter, btCompoundShape.getNumChildShapes.
  destruct (m_Shape c) as [children aabb] eqn:Hs.
  cbn [btCompoundShape.children btCompoundShape.localAabb].
  pose proof (recenter_children_spec massCenter children [] aabb) as Hr.
  cbn [length app] in Hr. rewrite Hr.
  match goal with |- context [NotifyObjectsOfMassCenterChange _ _ ?x _] =>
    assert (Hn : forall old, NotifyObjectsOfMassCenterChange fuel next x old
                             = NotifyObjectsOfMassCenterChange fuel next c old)
  end.
  { intro old. unfold NotifyObjectsOfMassCenterChange.
    now rewrite (proj1 (CalculateInertia_refs E _)). }
  rewrite Hn.
  destruct (NotifyObjectsOfMassCenterChange fuel next c (m_MassCenter c)); [| discriminate].
  intro H. injection H as <- <-. split; reflexivity.
Qed.

Lemma shape_volume_recenter E a children aabb aabb' :
  shape_volume E (btCompoundShape.recalculateLocalAabb E
                    (btCompoundShape.mk (map (recenter a) children) aabb))
  = shape_volume E (btCompoundShape.mk children aabb').
Proof.
  unfold shape_volume, btCompoundShape.recalculateLocalAabb.
  cbn [btCompoundShape.children].
  generalize 0. induction children as [| ch l IH]; intro v; [reflexivity |].
  cbn [map fold_left]. rewrite IH. reflexivity.
Qed.

Lemma recalculate_recenter_twice E a b children aabb aabb' :
  btCompoundShape.recalculateLocalAabb E
    (btCompoundShape.mk (map (recenter b) (map (recenter a) children)) aabb)
  = btCompoundShape.recalculateLocalAabb E
      (btCompoundShape.mk (map (recenter b) children) aabb').
Proof.
  unfold btCompoundShape.recalculateLocalAabb. cbn [btCompoundShape.children].
  rewrite map_map. reflexivity.
Qed.

Lemma notify_loop_old next firstObject oldMassCenter :
  forall fuel object calls result,
    notify_loop fuel next firstObject object oldMassCenter calls = Some result ->
    Forall (fun n => snd n = oldMassCenter) calls ->
    Forall (fun n => snd n = oldMassCenter) result.
Proof.
  induction fuel as [| fuel IH]; intros object calls result Hrun Hcalls; [discriminate |].
  cbn [notify_loop] in Hrun.
  assert (Hnew : Forall (fun n => snd n = oldMassCenter)
                        (calls ++ [(object, oldMassCenter)])).
  { apply Forall_app. split; [exact Hcalls | now constructor]. }
  destruct (next object =? firstObject)%nat.
  - now injection Hrun as <-.
  - exact (IH _ _ _ Hrun Hnew).
Qed.

(** X12: setting the mass centre to [a] and then to [b] leaves the
    compound exactly as setting it to [b] at once does (children, bounds,
    volume, inertia, attached bodies); the bodies notified by the second
    call are told [a] as the previous centre. *)
Theorem SetMassCenter_last_wins (E : Externals) (next : nat -> nat)
    (c : CPhysCollide_Compound) (a b : btVector3) (fuel1 fuel2 fuel3 : nat)
    (c1 c2 c3 : CPhysCollide_Compound) (calls1 calls2 calls3 : list Notification) :
  SetMassCenter E fuel1 next c a = Some (c1, calls1) ->
  SetMassCenter E fuel2 next c1 b = Some (c2, calls2) ->
  SetMassCenter E fuel3 next c b = Some (c3, calls3) ->
  c2 = c3 /\
  Forall (fun n => snd n = a) calls2.
Proof.
  intros H1 H2 H3.
  destruct (@SetMassCenter_compound _ _ _ _ _ _ _ H1) as [E1 _].
  destruct (@SetMassCenter_compound _ _ _ _ _ _ _ H2) as [E2 N2].
  destruct (@SetMassCenter_compound _ _ _ _ _ _ _ H3) as [E3 _].
  split.
  2:{ assert (Ha : m_MassCenter c1 = a).
      { rewrite E1. now rewrite (proj2 (CalculateInertia_refs E _)). }
      rewrite Ha in N2. unfold NotifyObjectsOfMassCenterChange in N2.
      destruct (m_ObjectReferenceList c1) as [firstObject |].
      - exact (@notify_loop_old next firstObject a fuel2 firstObject [] calls2 N2
                 (Forall_nil _)).
      - injection N2 as <-. constructor. }
  destruct c as [[children aabb] volume mc i owner refs].
  cbn [m_Shape m_Volume m_MassCenter m_Inertia collide_Owner m_ObjectReferenceList
       btCompoundShape.children btCompoundShape.localAabb] in *.
  rewrite CalculateInertia_settled in E1, E3.
  subst c1.
  cbn [m_Shape m_Volume m_MassCenter m_Inertia collide_Owner m_ObjectReferenceList
       btCompoundShape.children btCompoundShape.localAabb
       btCompoundShape.recalculateLocalAabb] in E2.
  rewrite CalculateInertia_settled in E2.
  subst c2 c3.
  fold (btCompoundShape.recalculateLocalAabb E
          (btCompoundShape.mk (map (recenter b) (map (recenter a) children))
             (fold_left (fun box ch => btCompoundShape.extend box (btCompoundShape.childAabb E ch))
                (map (recenter a) children) btCompoundShape.emptyAabb))).
  rewrite (recalculate_recenter_twice E a b children _ aabb).
  rewrite settled_volume_twice; [reflexivity |].
  rewrite (shape_volume_recenter E b children aabb aabb).
  fold (btCompoundShape.recalculateLocalAabb E
          (btCompoundShape.mk (map (recenter a) children) aabb)).
  now rewrite (shape_volume_recenter E a children aabb aabb).
Qed.

Lemma SetMassCenter_returns E next c massCenter bodies fuel :
  attached_bodies next c bodies ->
  (length bodies <= fuel)%nat ->
  exists c' calls,
    SetMassCenter E fuel next c massCenter = Some (c', calls) /\
    m_ObjectReferenceList c' = m_ObjectReferenceList c.
Proof.
  intros Hatt Hfuel. unfold SetMassCenter.
  match goal with |- context [NotifyObjectsOfMassCenterChange _ _ ?x _] =>
    set (c0 := x) end.
  assert (Hrefs : m_ObjectReferenceList c0 = m_ObjectReferenceList c).
  { unfold c0. now rewrite (proj1 (CalculateInertia_refs E _)). }
  unfold NotifyObjectsOfMassCenterChange. rewrite Hrefs.
  destruct bodies as [| first rest]; cbn [attached_bodies] in Hatt.
  - rewrite Hatt. exists c0, []. split; [reflexivity | now rewrite Hrefs].
  - destruct Hatt as [Hfirst [Hl Hnd]]. rewrite Hfirst.
    rewrite (@notify_loop_circular next first (m_MassCenter c) rest first [] fuel Hl
               ltac:(now inversion Hnd) Hfuel).
    eexists. eexists. split; [reflexivity | now rewrite Hrefs, Hfirst].
Qed.

Lemma SetMassCenter_last_wins_witness :
  exists c1 calls1 c2 calls2 c3 calls3,
    SetMassCenter sample_externals 2 attached_next attached_compound (mkV 1 1 1)
    = Some (c1, calls1) /\
    SetMassCenter sample_externals 2 attached_next c1 (mkV 2 2 2) = Some (c2, calls2) /\
    SetMassCenter sample_externals 2 attached_next attached_compound (mkV 2 2 2)
    = Some (c3, calls3) /\
    c2 = c3.
Proof.
  assert (Hc : attached_bodies attached_next attached_compound [7; 9]%nat).
  { split; [reflexivity |]. split; [split; reflexivity |].
    constructor; [simpl; intros [H | []]; discriminate |].
    constructor; [intros [] | constructor]. }
  destruct (@SetMassCenter_returns sample_externals attached_next attached_compound
              (mkV 1 1 1) [7; 9]%nat 2 Hc (le_n 2)) as (c1 & calls1 & H1 & R1).
  assert (Hc1 : attached_bodies attached_next c1 [7; 9]%nat).
  { destruct Hc as [Hh Hcirc]. split; [now rewrite R1 | exact Hcirc]. }
  destruct (@SetMassCenter_returns sample_externals attached_next c1
              (mkV 2 2 2) [7; 9]%nat 2 Hc1 (le_n 2)) as (c2 & calls2 & H2 & _).
  destruct (@SetMassCenter_returns sample_externals attached_next attached_compound
              (mkV 2 2 2) [7; 9]%nat 2 Hc (le_n 2)) as (c3 & calls3 & H3 & _).
  exists c1, calls1, c2, calls2, c3, calls3.
  split; [exact H1 |]. split; [exact H2 |]. split; [exact H3 |].
  exact (proj1 (@SetMassCenter_last_wins sample_externals attached_next attached_compound
                  (mkV 1 1 1) (mkV 2 2 2) 2 2 2 c1 c2 c3 calls1 calls2 calls3 H1 H2 H3)).
Defined.

(** ** The list pointer of a collideable *)

(** X13: attaching a body makes the collideable used and hands back the
    previous head; detaching a body that is alone in its ring (its next
    body is itself) undoes the attachment to an unused collideable and
    leaves it unused, after which a change of the mass centre notifies
    nobody; detaching the head of a longer ring moves the head to the next
    body; detaching a body that is not the head changes nothing. *)
Theorem object_reference_list (E : Externals) (next : nat -> nat)
    (c : CPhysCollide_Compound) (object : nat) :
  (fst (AddObjectReference c object) = m_ObjectReferenceList c /\
   IsCollisionModelUsed (snd (AddObjectReference c object)) = true) /\
  (next object = object ->
   IsCollisionModelUsed c = false ->
   RemoveObjectReference next (snd (AddObjectReference c object)) object = c /\
   forall fuel massCenter,
     option_map snd (SetMassCenter E fuel next c massCenter) = Some []) /\
  (next object <> object ->
   m_ObjectReferenceList c = Some object ->
   m_ObjectReferenceList (RemoveObjectReference next c object) = Some (next object)) /\
  (m_ObjectReferenceList c <> Some object ->
   RemoveObjectReference next c object = c).
Proof.
  split; [split; reflexivity |]. split; [| split].
  - intros Halone Hunused.
    unfold IsCollisionModelUsed in Hunused.
    destruct c as [shape volume massCenter inertia owner refs].
    cbn [m_ObjectReferenceList] in Hunused. destruct refs; [discriminate |].
    split.
    + unfold RemoveObjectReference, AddObjectReference.
      cbn [snd m_ObjectReferenceList m_Shape m_Volume m_MassCenter m_Inertia collide_Owner].
      now rewrite Nat.eqb_refl, Halone, Nat.eqb_refl.
    + intros fuel mc. unfold SetMassCenter, NotifyObjectsOfMassCenterChange.
      now rewrite (proj1 (CalculateInertia_refs E _)).
  - intros Hring Hhead. unfold RemoveObjectReference. rewrite Hhead, Nat.eqb_refl.
    cbn [m_ObjectReferenceList]. apply Nat.eqb_neq in Hring. now rewrite Hring.
  - intro Hnot. unfold RemoveObjectReference.
    destruct (m_ObjectReferenceList c) as [head |]; [| reflexivity].
    destruct (Nat.eqb_spec head object) as [-> | Hne]; [now contradiction Hnot | reflexivity].
Qed.

Lemma object_reference_list_witness :
  let c := fst (Compound_new sample_externals (two_boxes (mkV 1 2 3))) in
  let next := fun o : nat => o in
  next 7%nat = 7%nat /\
  IsCollisionModelUsed c = false /\
  RemoveObjectReference next (snd (AddObjectReference c 7)) 7 = c.
Proof.
  intros c next.
  assert (H1 : next 7%nat = 7%nat) by reflexivity.
  assert (H2 : IsCollisionModelUsed c = false) by reflexivity.
  split; [exact H1 |]. split; [exact H2 |].
  exact (proj1 (proj1 (proj2 (@object_reference_list sample_externals next c 7)) H1 H2)).
Defined.

(** ** Growth of the cache *)

Lemma cache_loop_bound cache he o threshold :
  forall n p,
    cache_loop n cache he o threshold = Some p ->
    (p < n)%nat /\ exists c, nth_error cache p = Some c.
Proof.
  induction n as [| n IH]; intros p Hp; [discriminate |].
  cbn [cache_loop] in Hp.
  assert (Hrec : cache_loop n cache he o threshold = Some p ->
                 (p < S n)%nat /\ exists c, nth_error cache p = Some c).
  { intro H. destruct (IH p H) as [Hlt Hc]. split; [lia | exact Hc]. }
  destruct (nth_error cache n) as [cacheCompound |] eqn:Hn; [| now apply Hrec].
  destruct (cache_box cacheCompound) as [cacheBox |]; [| now apply Hrec].
  rewrite component_loop_first_component in Hp.
  destruct (_ || _); [now apply Hrec |].
  injection Hp as <-. split; [lia | now exists cacheCompound].
Qed.

(** X14: whatever is requested, [CreateBBox] only ever appends to the
    cache: the old entries keep their handles, at most one entry is added,
    a handle it returns names an entry of the new cache, and when that
    handle already named an entry before the call, nothing was added. *)
Theorem CreateBBox_appends (E : Externals) (st : CPhysicsCollision) (mins maxs : Vector) :
  let r := fst (CreateBBox E st mins maxs) in
  let st' := snd (CreateBBox E st mins maxs) in
  exists added,
    m_BBoxCache st' = m_BBoxCache st ++ added /\
    (length added <= 1)%nat /\
    (forall q c, nth_error (m_BBoxCache st) q = Some c ->
                 nth_error (m_BBoxCache st') q = Some c) /\
    (forall p, r = Some p ->
       (exists c, nth_error (m_BBoxCache st') p = Some c) /\
       ((p < length (m_BBoxCache st))%nat -> st' = st)) /\
    (r = None -> st' = st /\ V3.eqb mins maxs = true).
Proof.
  intros r st'. unfold r, st', CreateBBox.
  destruct (V3.eqb mins maxs) eqn:Heq.
  - exists []. cbn [fst snd]. rewrite app_nil_r.
    repeat split; auto; discriminate.
  - cbv zeta.
    destruct (cache_loop _ _ _ _ _) as [p |] eqn:Hloop.
    + exists []. cbn [fst snd]. rewrite app_nil_r.
      destruct (cache_loop_bound _ _ _ _ _ Hloop) as [_ Hc].
      split; [reflexivity |]. split; [cbn [length]; lia |].
      split; [auto |]. split; [| discriminate].
      intros q Hq. injection Hq as <-. split; [exact Hc | reflexivity].
    + eexists [_]. cbn [fst snd m_BBoxCache].
      split; [reflexivity |]. split; [cbn [length]; lia |].
      split; [| split].
      * intros q c Hq. rewrite nth_error_app1; [exact Hq |].
        apply nth_error_Some. congruence.
      * intros p Hp. injection Hp as <-. split.
        -- eexists. rewrite nth_error_app2, Nat.sub_diag by lia. reflexivity.
        -- lia.
      * discriminate.
Qed.

Lemma CreateBBox_appends_witness :
  exists added,
    m_BBoxCache (snd (CreateBBox sample_externals cache_with_cube cube_mins cube_maxs))
    = m_BBoxCache cache_with_cube ++ added /\
    (length added <= 1)%nat.
Proof.
  pose proof (@CreateBBox_appends sample_externals cache_with_cube cube_mins cube_maxs)
    as H.
  cbv zeta in H. destruct H as (added & H1 & H2 & _).
  exists added. split; [exact H1 | exact H2].
Defined.

(** Every entry of the cache is a compound of a single, internally owned
    box, and is itself marked as managed internally. *)
Lemma cache_reachable_boxes E st :
  cache_reachable E st ->
  Forall (fun c => exists b,
            map child_convex (btCompoundShape.children (m_Shape c))
            = [mkConvex OWNER_INTERNAL (BoxShape b)] /\
            collide_Owner c = COLLIDE_OWNER_INTERNAL)
         (m_BBoxCache st).
Proof.
  induction 1 as [| st mins maxs Hr IH]; [constructor |].
  unfold CreateBBox.
  destruct (V3.eqb mins maxs); [exact IH |].
  destruct (cache_loop _ _ _ _ _); [exact IH |].
  cbn [snd m_BBoxCache]. apply Forall_app. split; [exact IH |].
  constructor; [| constructor].
  unfold Collide_SetOwner. cbn [m_Shape collide_Owner].
  rewrite Compound_new_children. cbn [map child_convex].
  eexists. split; reflexivity.
Qed.

(** X15: in every cache that [CreateBBox] can build, each entry is a
    compound of exactly one child, a box tagged [OWNER_INTERNAL], and is
    itself marked as managed internally; so the cast of the first child to
    a box, which the scan of the cache makes, always meets a box. *)
Theorem bbox_cache_holds_boxes (E : Externals) (st : CPhysicsCollision)
    (p : nat) (c : CPhysCollide_Compound) :
  cache_reachable E st ->
  nth_error (m_BBoxCache st) p = Some c ->
  exists b,
    map child_convex (btCompoundShape.children (m_Shape c))
    = [mkConvex OWNER_INTERNAL (BoxShape b)] /\
    collide_Owner c = COLLIDE_OWNER_INTERNAL /\
    cache_box c = Some b.
Proof.
  intros Hr Hp.
  pose proof (cache_reachable_boxes Hr) as Hall. rewrite Forall_forall in Hall.
  destruct (Hall c (nth_error_In _ _ Hp)) as (b & Hch & Hown).
  exists b. split; [exact Hch |]. split; [exact Hown |].
  unfold cache_box.
  destruct (btCompoundShape.children (m_Shape c)) as [| ch rest]; [discriminate |].
  cbn [map] in Hch. injection Hch as Hc _. now rewrite Hc.
Qed.

Lemma bbox_cache_holds_boxes_witness :
  cache_reachable sample_externals cache_with_cube /\
  exists c b,
    nth_error (m_BBoxCache cache_with_cube) 0 = Some c /\
    cache_box c = Some b.
Proof.
  assert (Hr : cache_reachable sample_externals cache_with_cube).
  { unfold cache_with_cube. apply cache_request. apply cache_initial. }
  split; [exact Hr |].
  destruct (nth_error (m_BBoxCache cache_with_cube) 0) as [c |] eqn:Hc;
    [| vm_compute in Hc; discriminate Hc].
  destruct (@bbox_cache_holds_boxes sample_externals cache_with_cube 0 c Hr Hc)
    as (b & _ & _ & Hb).
  exists c, b. split; [reflexivity | exact Hb].
Defined.




(* ------------------------------------------------------------------ *)
(** ** The material lookup, for every hull *)

(** X17: [CPhysConvex_Hull::GetTriangleMaterialIndex] answers without
    looking at the point: its scan over the other triangles never runs, so
    it ends with no fuel at all, reads no plane past the first, and gives
    the material of triangle 0, or 0 for a hull with no materials. *)
Theorem material_lookup_ignores_point (fuel fuel' : nat) (h : CPhysConvex_Hull)
    (point point' : btVector3) :
  GetTriangleMaterialIndex fuel h point = GetTriangleMaterialIndex fuel' h point' /\
  GetTriangleMaterialIndex 0 h point = Some (hd 0%Z (m_TriangleMaterials h)).
Proof.
  rewrite !GetTriangleMaterialIndex_is_first.
  split; [reflexivity |].
  destruct (m_TriangleMaterials h); reflexivity.
Qed.

(* ------------------------------------------------------------------ *)
(** ** The simulation clock *)

(** Names a scalar of the environment, for [ring]. *)
Ltac scalar t :=
  let x := fresh "q" in set (x := t) in *; clearbody x; change Q in (type of x).



Lemma MIN_le_l a b : MIN a b <= a.
Proof.
  unfold MIN. destruct (Qltb a b) eqn:H; [apply Qle_refl |].
  apply Qltb_ge in H. exact H.
Qed.

Lemma MIN_le_r a b : MIN a b <= b.
Proof.
  unfold MIN. destruct (Qltb a b) eqn:H; [| apply Qle_refl].
  apply Qltb_lt in H. apply Qlt_le_weak. exact H.
Qed.




Lemma int_of_scalar_pos x : (0 < int_of_scalar x)%Z -> 0 <= x.
Proof.
  destruct x as [n d]. unfold int_of_scalar. cbn [Qnum Qden]. intros H.
  unfold Qle. cbn.
  destruct (Z.lt_ge_cases n 0) as [Hneg | Hpos]; [| lia].
  exfalso.
  pose proof (Z.quot_opp_l (- n) (Z.pos d) ltac:(lia)) as Ho.
  rewrite Z.opp_involutive in Ho.
  pose proof (Z.quot_pos (- n) (Z.pos d) ltac:(lia) ltac:(lia)).
  lia.
Qed.

(** The rounds of the loop over the PSIs: what they leave alone, and how
    far they move the clock. *)
Lemma psi_loop_fields n env :
  let env' := Nat.iter n psi_step env in
  m_QueueDeleteObject env' = m_QueueDeleteObject env /\
  m_SimulationTimeStep env' = m_SimulationTimeStep env /\
  m_SimulationInvTimeStep env' = m_SimulationInvTimeStep env /\
  m_TimeSinceLastPSI env' = m_TimeSinceLastPSI env /\
  m_Objects env' = m_Objects env /\
  env_marked env' = env_marked env /\
  env_steps env' = (env_steps env + n)%nat /\
  m_LastPSITime env' == m_LastPSITime env + inject_Z (Z.of_nat n) * m_SimulationTimeStep env /\
  env_deleted env' ++ m_DeadObjects env' = env_deleted env ++ m_DeadObjects env /\
  (m_QueueDeleteObject env = true ->
   env_deleted env' = env_deleted env /\ m_DeadObjects env' = m_DeadObjects env).
Proof.
  induction n as [| n IH].
  - cbn. repeat split; try reflexivity; try lia.
    change (Z.of_nat 0) with 0%Z.
    scalar (m_LastPSITime env). scalar (m_SimulationTimeStep env). ring.
  - cbn zeta in *.
    change (Nat.iter (S n) psi_step env) with (psi_step (Nat.iter n psi_step env)).
    set (e := Nat.iter n psi_step env) in *.
    destruct IH as (Hq & Hs & Hi & Ht & Ho & Hm & Hn & Hl & Hd & Hk).
    unfold psi_step, stepSimulation, TickCallback, PreTickCallback.
    assert (Hsucc : inject_Z (Z.of_nat (S n)) == inject_Z (Z.of_nat n) + 1).
    { rewrite Nat2Z.inj_succ, <- Z.add_1_r, inject_Z_plus. reflexivity. }
    destruct (m_QueueDeleteObject e) eqn:Hqe;
      cbn [m_QueueDeleteObject m_InSimulation m_SimulationTimeStep
           m_SimulationInvTimeStep m_LastPSITime m_TimeSinceLastPSI m_Objects
           m_DeadObjects env_deleted env_marked env_steps CleanupDeleteList];
      (split; [congruence |]); (split; [exact Hs |]); (split; [exact Hi |]);
      (split; [exact Ht |]); (split; [exact Ho |]); (split; [exact Hm |]);
      (split; [rewrite Hn; lia |]);
      (split; [rewrite Hl, Hs, Hsucc; scalar (m_LastPSITime env);
               scalar (m_SimulationTimeStep env); ring |]).
    + split; [exact Hd |]. intros Hqt. apply Hk. exact Hqt.
    + split; [rewrite app_nil_r; exact Hd |]. intros Hqt. congruence.
Qed.



(** X19: [CPhysicsEnvironment::Simulate] traps a delta that is not
    strictly between 0 and 1 (a clock change or an interrupt): the clock
    stays as it was and Bullet is not stepped. *)
Theorem Simulate_traps_clock_changes (env : CPhysicsEnvironment) (deltaTime : btScalar) :
  deltaTime <= 0 \/ 1 <= deltaTime ->
  m_LastPSITime (Simulate env deltaTime) = m_LastPSITime env /\
  m_TimeSinceLastPSI (Simulate env deltaTime) = m_TimeSinceLastPSI env /\
  env_steps (Simulate env deltaTime) = env_steps env /\
  m_InSimulation (Simulate env deltaTime) = m_InSimulation env.
Proof.
  intros H. unfold Simulate.
  assert (Hc : Qgtb deltaTime 0 && Qltb deltaTime 1 = false).
  { destruct H as [H | H].
    - apply Qltb_ge in H. unfold Qgtb. rewrite H. reflexivity.
    - apply Qltb_ge in H. rewrite H. apply andb_false_r. }
  rewrite Hc. destruct (m_QueueDeleteObject env); repeat split; reflexivity.
Qed.

Lemma Simulate_traps_clock_changes_witness :
  m_LastPSITime (Simulate sample_environment 2) = 0 /\
  m_TimeSinceLastPSI (Simulate sample_environment 2) = 0 /\
  env_steps (Simulate sample_environment 2) = 0%nat /\
  m_InSimulation (Simulate sample_environment 2) = false.
Proof.
  assert (H : 2 <= 0 \/ 1 <= 2) by (right; discriminate).
  exact (@Simulate_traps_clock_changes sample_environment 2 H).
Defined.





(* ------------------------------------------------------------------ *)
(** ** The objects of the environment and the delete queue *)

Lemma utl_Find_none l src : utl_Find l src = None <-> ~ In src l.
Proof.
  induction l as [| x l IH]; cbn.
  - split; [intros _ [] | reflexivity].
  - destruct (Nat.eqb_spec x src) as [-> | Hne].
    + split; [discriminate | intros H; exfalso; apply H; left; reflexivity].
    + destruct (utl_Find l src) eqn:Hf.
      * split; [discriminate |]. intros H. exfalso.
        assert (Hn : ~ In src l) by (intros Hin; apply H; right; exact Hin).
        apply IH in Hn. discriminate.
      * split; [| reflexivity]. intros _ [Heq | Hin]; [congruence |].
        destruct IH as [IH1 _]. exact (IH1 eq_refl Hin).
Qed.

Lemma utl_Find_some l src elem :
  utl_Find l src = Some elem ->
  (elem < length l)%nat /\ nth_error l elem = Some src.
Proof.
  revert elem. induction l as [| x l IH]; cbn; intros elem H; [discriminate |].
  destruct (Nat.eqb_spec x src) as [-> | Hne].
  - injection H as <-. cbn. split; [lia | reflexivity].
  - destruct (utl_Find l src) as [i |] eqn:Hf; [| discriminate].
    injection H as <-. destruct (IH i eq_refl) as [Hlt Hnth].
    cbn. split; [lia | exact Hnth].
Qed.

Lemma utl_FastRemove_perm l elem x :
  nth_error l elem = Some x ->
  Permutation l (x :: utl_FastRemove l elem) /\
  length (utl_FastRemove l elem) = pred (length l).
Proof.
  intros Hnth. unfold utl_FastRemove.
  destruct (rev l) as [| last front] eqn:Hrev.
  - apply (f_equal (@rev nat)) in Hrev. rewrite rev_involutive in Hrev. subst l.
    destruct elem; discriminate.
  - apply (f_equal (@rev nat)) in Hrev. rewrite rev_involutive in Hrev. cbn in Hrev.
    subst l. set (f := rev front) in *.
    assert (Hlen : length front = length f) by (unfold f; rewrite length_rev; reflexivity).
    rewrite Hlen.
    destruct (Nat.eqb_spec elem (length f)) as [-> | Hne].
    + rewrite nth_error_app2 in Hnth by lia. rewrite Nat.sub_diag in Hnth.
      cbn in Hnth. injection Hnth as <-.
      split.
      * symmetry. apply Permutation_cons_append.
      * rewrite length_app. cbn. lia.
    + assert (Hlt : (elem < length f)%nat).
      { assert (Hl : (elem < length (f ++ [last]))%nat)
          by (apply nth_error_Some; congruence).
        rewrite length_app in Hl. cbn in Hl. lia. }
      rewrite nth_error_app1 in Hnth by exact Hlt.
      destruct (nth_error_split f elem Hnth) as (l1 & l2 & Hf & Hl1).
      assert (Hfirst : firstn elem f = l1).
      { rewrite Hf, <- Hl1. rewrite firstn_app, Nat.sub_diag, firstn_all. cbn.
        apply app_nil_r. }
      assert (Hskip : skipn (S elem) f = l2).
      { rewrite Hf, <- Hl1.
        change (l1 ++ x :: l2) with (l1 ++ [x] ++ l2). rewrite app_assoc.
        replace (S (length l1)) with (length (l1 ++ [x]))
          by (rewrite length_app; cbn; lia).
        rewrite skipn_app, Nat.sub_diag, skipn_all. reflexivity. }
      rewrite Hfirst, Hskip, Hf.
      split.
      * rewrite <- app_assoc. cbn. symmetry.
        apply Permutation_cons_app. apply Permutation_app_head.
        apply Permutation_cons_append.
      * repeat (rewrite ?length_app; cbn [length]). lia.
Qed.

Lemma FindAndFastRemove_present l src :
  In src l ->
  Permutation l (src :: utl_FindAndFastRemove l src) /\
  length (utl_FindAndFastRemove l src) = pred (length l).
Proof.
  intros Hin. unfold utl_FindAndFastRemove.
  destruct (utl_Find l src) as [elem |] eqn:Hf.
  - destruct (utl_Find_some _ _ Hf) as [_ Hnth].
    apply utl_FastRemove_perm. exact Hnth.
  - apply utl_Find_none in Hf. contradiction.
Qed.

Lemma FindAndFastRemove_absent l src :
  ~ In src l -> utl_FindAndFastRemove l src = l.
Proof.
  intros Hin. unfold utl_FindAndFastRemove.
  apply utl_Find_none in Hin. rewrite Hin. reflexivity.
Qed.

Lemma utl_Find_tail l src :
  ~ In src l -> utl_Find (l ++ [src]) src = Some (length l).
Proof.
  induction l as [| x l IH]; cbn; intros Hin.
  - rewrite Nat.eqb_refl. reflexivity.
  - destruct (Nat.eqb_spec x src) as [-> | Hne].
    + exfalso. apply Hin. left. reflexivity.
    + rewrite IH; [reflexivity |]. intros H. apply Hin. right. exact H.
Qed.

(** X22: [CPhysicsEnvironment::DestroyObject] takes one entry for the
    object out of the list of all objects and keeps every other entry (the
    order may change: the last entry takes the freed place); the object
    is then either deleted at once or, during a simulation step or with
    the delete queue enabled, marked and put at the end of the delete list
    with nothing deleted.  Either way it is accounted for exactly once
    more among the deleted and the waiting objects. *)
Theorem DestroyObject_moves_object (env : CPhysicsEnvironment) (object : nat) :
  In object (m_Objects env) ->
  let env' := DestroyObject env (Some object) in
  Permutation (m_Objects env) (object :: m_Objects env') /\
  (NoDup (m_Objects env) -> ~ In object (m_Objects env')) /\
  Permutation (object :: env_deleted env ++ m_DeadObjects env)
              (env_deleted env' ++ m_DeadObjects env') /\
  (if m_InSimulation env || m_QueueDeleteObject env
   then env_deleted env' = env_deleted env /\
        m_DeadObjects env' = m_DeadObjects env ++ [object] /\
        env_marked env' = env_marked env ++ [object]
   else env_deleted env' = env_deleted env ++ [object] /\
        m_DeadObjects env' = m_DeadObjects env /\
        env_marked env' = env_marked env).
Proof.
  intros Hin. cbn zeta.
  destruct (@FindAndFastRemove_present _ _ Hin) as [Hperm _].
  assert (Hobjs : m_Objects (DestroyObject env (Some object))
                  = utl_FindAndFastRemove (m_Objects env) object).
  { unfold DestroyObject. destruct (m_InSimulation env || m_QueueDeleteObject env);
      reflexivity. }
  rewrite Hobjs.
  split; [exact Hperm |].
  split.
  { intros Hnd Hin'.
    assert (Hnd' : NoDup (object :: utl_FindAndFastRemove (m_Objects env) object)).
    { eapply Permutation_NoDup; [exact Hperm | exact Hnd]. }
    inversion Hnd'. contradiction. }
  unfold DestroyObject.
  destruct (m_InSimulation env || m_QueueDeleteObject env); cbn.
  - split.
    + rewrite app_assoc. apply Permutation_cons_append.
    + repeat split; reflexivity.
  - split.
    + apply (Permutation_app_tail (m_DeadObjects env)
               (Permutation_cons_append (env_deleted env) object)).
    + repeat split; reflexivity.
Qed.

Lemma DestroyObject_moves_object_witness :
  Permutation (m_Objects sample_environment)
              (2%nat :: m_Objects (DestroyObject sample_environment (Some 2%nat))).
Proof.
  assert (Hin : In 2%nat (m_Objects sample_environment))
    by (right; left; reflexivity).
  exact (proj1 (@DestroyObject_moves_object sample_environment 2%nat Hin)).
Defined.

(** X23: Adding an object that the environment does not hold and then
    destroying it, outside a simulation step and with the delete queue
    disabled, gives back the list of objects as it was, in the same order,
    and the object is deleted at once; a null pointer given to
    [DestroyObject] changes nothing. *)
Theorem AddObject_DestroyObject (env : CPhysicsEnvironment) (object : nat) :
  ~ In object (m_Objects env) ->
  m_InSimulation env = false ->
  m_QueueDeleteObject env = false ->
  let env' := DestroyObject (AddObject env object) (Some object) in
  m_Objects env' = m_Objects env /\
  env_deleted env' = env_deleted env ++ [object] /\
  m_DeadObjects env' = m_DeadObjects env /\
  DestroyObject env None = env.
Proof.
  intros Hin Hsim Hq. cbn zeta. unfold DestroyObject, AddObject.
  cbn [m_InSimulation m_QueueDeleteObject m_Objects].
  rewrite Hsim, Hq. cbn.
  unfold utl_FindAndFastRemove. rewrite (@utl_Find_tail _ _ Hin).
  unfold utl_FastRemove. rewrite rev_app_distr. cbn.
  rewrite length_rev, Nat.eqb_refl, rev_involutive.
  repeat split; reflexivity.
Qed.

Lemma AddObject_DestroyObject_witness :
  m_Objects (DestroyObject (AddObject sample_environment 9%nat) (Some 9%nat))
  = m_Objects sample_environment.
Proof.
  assert (Hin : ~ In 9%nat (m_Objects sample_environment)).
  { cbn. intros [H | [H | [H | [H | []]]]]; discriminate. }
  exact (proj1 (@AddObject_DestroyObject sample_environment 9%nat Hin
                  eq_refl eq_refl)).
Defined.

(** X24: With the delete queue disabled, [CPhysicsEnvironment::Simulate]
    leaves the delete list empty whatever the delta, also one it traps:
    every object that was waiting is deleted, once and in the order it was
    destroyed, and no other; the list of objects is not touched. *)
Theorem Simulate_flushes_delete_list (env : CPhysicsEnvironment) (deltaTime : btScalar) :
  m_QueueDeleteObject env = false ->
  m_DeadObjects (Simulate env deltaTime) = [] /\
  env_deleted (Simulate env deltaTime) = env_deleted env ++ m_DeadObjects env /\
  m_Objects (Simulate env deltaTime) = m_Objects env.
Proof.
  intros Hq. unfold Simulate.
  assert (Hfin : forall e, m_QueueDeleteObject e = false ->
                           env_deleted e ++ m_DeadObjects e
                           = env_deleted env ++ m_DeadObjects env ->
                           m_Objects e = m_Objects env ->
    m_DeadObjects (if m_QueueDeleteObject e then e else CleanupDeleteList e) = [] /\
    env_deleted (if m_QueueDeleteObject e then e else CleanupDeleteList e)
    = env_deleted env ++ m_DeadObjects env /\
    m_Objects (if m_QueueDeleteObject e then e else CleanupDeleteList e) = m_Objects env).
  { intros e E1 E2 E3. rewrite E1. cbn. repeat split; assumption. }
  destruct (Qgtb deltaTime 0 && Qltb deltaTime 1); [| apply Hfin; auto].
  cbn [m_TimeSinceLastPSI set_TimeSinceLastPSI m_SimulationInvTimeStep].
  match goal with |- context [(0 <? ?n)%Z] => destruct (0 <? n)%Z; [set (k := Z.to_nat n) |] end.
  - match goal with |- context [Nat.iter k psi_step ?e0] =>
      destruct (psi_loop_fields k e0) as (Hq' & _ & _ & _ & Ho & _ & _ & _ & Hd & _)
    end.
    cbn zeta in *. apply Hfin.
    + cbn. rewrite Hq'. exact Hq.
    + cbn. exact Hd.
    + cbn. exact Ho.
  - apply Hfin; auto.
Qed.

Lemma Simulate_flushes_delete_list_witness :
  m_DeadObjects (Simulate sample_environment 2) = [] /\
  env_deleted (Simulate sample_environment 2) = [5; 6]%nat /\
  m_Objects (Simulate sample_environment 2) = [1; 2; 3; 4]%nat.
Proof.
  exact (@Simulate_flushes_delete_list sample_environment 2 eq_refl).
Defined.

(** X25: With the delete queue enabled nothing is ever deleted by
    [DestroyObject] or by [Simulate]: destroyed objects only gather in the
    delete list, and [Simulate] leaves that list as it is. *)
Theorem delete_queue_holds_objects (env : CPhysicsEnvironment)
    (pObject : option nat) (deltaTime : btScalar) :
  m_QueueDeleteObject env = true ->
  env_deleted (DestroyObject env pObject) = env_deleted env /\
  m_QueueDeleteObject (DestroyObject env pObject) = true /\
  env_deleted (Simulate env deltaTime) = env_deleted env /\
  m_DeadObjects (Simulate env deltaTime) = m_DeadObjects env /\
  m_QueueDeleteObject (Simulate env deltaTime) = true.
Proof.
  intros Hq.
  split; [| split].
  - unfold DestroyObject. destruct pObject; [| reflexivity].
    rewrite Hq, orb_true_r. reflexivity.
  - unfold DestroyObject. destruct pObject; [| exact Hq].
    rewrite Hq, orb_true_r. reflexivity.
  - unfold Simulate.
    assert (Hfin : forall e, m_QueueDeleteObject e = true ->
                             env_deleted e = env_deleted env ->
                             m_DeadObjects e = m_DeadObjects env ->
      env_deleted (if m_QueueDeleteObject e then e else CleanupDeleteList e)
      = env_deleted env /\
      m_DeadObjects (if m_QueueDeleteObject e then e else CleanupDeleteList e)
      = m_DeadObjects env /\
      m_QueueDeleteObject (if m_QueueDeleteObject e then e else CleanupDeleteList e)
      = true).
    { intros e E1 E2 E3. rewrite E1. repeat split; assumption. }
    destruct (Qgtb deltaTime 0 && Qltb deltaTime 1); [| apply Hfin; auto].
    cbn [m_TimeSinceLastPSI set_TimeSinceLastPSI m_SimulationInvTimeStep].
    match goal with |- context [(0 <? ?n)%Z] => destruct (0 <? n)%Z; [set (k := Z.to_nat n) |] end.
    + match goal with |- context [Nat.iter k psi_step ?e0] =>
        destruct (psi_loop_fields k e0) as (Hq' & _ & _ & _ & _ & _ & _ & _ & _ & Hk)
      end.
      cbn zeta in *. destruct (Hk Hq) as [Hk1 Hk2]. apply Hfin.
      * cbn. rewrite Hq'. exact Hq.
      * cbn. exact Hk1.
      * cbn. exact Hk2.
    + apply Hfin; auto.
Qed.

Lemma delete_queue_holds_objects_witness :
  env_deleted (Simulate (EnableDeleteQueue sample_environment true) (4 # 100)) = [] /\
  m_DeadObjects (Simulate (EnableDeleteQueue sample_environment true) (4 # 100))
  = [5; 6]%nat.
Proof.
  pose proof (@delete_queue_holds_objects (EnableDeleteQueue sample_environment true)
                None (4 # 100) eq_refl) as (_ & _ & H1 & H2 & _).
  split; [exact H1 | exact H2].
Defined.

(* ------------------------------------------------------------------ *)
(** ** The overlap filter *)

Section OverlapFilter.

Variables CALLBACK_ENABLING_COLLISION CALLBACK_MARKED_FOR_DELETE : Z.

Let need := needBroadphaseCollision CALLBACK_ENABLING_COLLISION CALLBACK_MARKED_FOR_DELETE.

(** X26: The overlap filter only narrows Bullet's default filter: it lets
    a pair through only if both proxies have a collision object with a
    physics object behind it, the two are not both static, both have
    collisions enabled and each proxy's group meets the other's mask; with
    a collision solver set, only if the solver agrees as well. *)
Theorem needBroadphaseCollision_only_narrows
    (m_CollisionSolver : option CollisionSolver) (proxy0 proxy1 : btBroadphaseProxy) :
  need m_CollisionSolver proxy0 proxy1 = true ->
  exists collisionObject0 collisionObject1 object0 object1,
    m_clientObject proxy0 = Some collisionObject0 /\
    m_clientObject proxy1 = Some collisionObject1 /\
    getUserPointer collisionObject0 = Some object0 /\
    getUserPointer collisionObject1 = Some object1 /\
    (isStaticObject collisionObject0 = false \/ isStaticObject collisionObject1 = false) /\
    IsCollisionEnabled object0 = true /\
    IsCollisionEnabled object1 = true /\
    Z.land (m_collisionFilterGroup proxy0) (m_collisionFilterMask proxy1) <> 0%Z /\
    Z.land (m_collisionFilterGroup proxy1) (m_collisionFilterMask proxy0) <> 0%Z /\
    (forall ShouldCollide, m_CollisionSolver = Some ShouldCollide ->
       ShouldCollide object0 object1 (GetGameData object0) (GetGameData object1) = true).
Proof.
  unfold need, needBroadphaseCollision. intros H.
  destruct (m_clientObject proxy0) as [c0 |] eqn:Hc0; [| discriminate].
  destruct (m_clientObject proxy1) as [c1 |] eqn:Hc1; [| discriminate].
  destruct (isStaticObject c0 && isStaticObject c1) eqn:Hst; [discriminate |].
  destruct (getUserPointer c0) as [o0 |] eqn:Ho0; [| discriminate].
  destruct (getUserPointer c1) as [o1 |] eqn:Ho1; [| discriminate].
  destruct (negb (IsCollisionEnabled o0) || negb (IsCollisionEnabled o1)) eqn:Hen;
    [discriminate |].
  apply orb_false_iff in Hen. destruct Hen as [He0 He1].
  apply negb_false_iff in He0, He1.
  apply andb_false_iff in Hst.
  assert (Hdef : nonzero (Z.land (m_collisionFilterGroup proxy0) (m_collisionFilterMask proxy1))
                 && nonzero (Z.land (m_collisionFilterGroup proxy1) (m_collisionFilterMask proxy0))
                 = true /\
                 (forall ShouldCollide, m_CollisionSolver = Some ShouldCollide ->
                    ShouldCollide o0 o1 (GetGameData o0) (GetGameData o1) = true)).
  { destruct m_CollisionSolver as [s |].
    - destruct (nonzero (Z.land (GetCallbackFlags o0) CALLBACK_ENABLING_COLLISION)
                && nonzero (Z.land (GetCallbackFlags o1) CALLBACK_MARKED_FOR_DELETE));
        [discriminate |].
      destruct (nonzero (Z.land (GetCallbackFlags o1) CALLBACK_ENABLING_COLLISION)
                && nonzero (Z.land (GetCallbackFlags o0) CALLBACK_MARKED_FOR_DELETE));
        [discriminate |].
      destruct (s o0 o1 (GetGameData o0) (GetGameData o1)) eqn:Hs; [| discriminate].
      cbn in H. split; [exact H |]. intros s' Hs'. injection Hs' as <-. exact Hs.
    - split; [exact H |]. intros s' Hs'. discriminate. }
  destruct Hdef as [Hdef Hsolver].
  apply andb_true_iff in Hdef. destruct Hdef as [Hd0 Hd1].
  unfold nonzero in Hd0, Hd1. apply negb_true_iff in Hd0, Hd1.
  apply Z.eqb_neq in Hd0, Hd1.
  exists c0, c1, o0, o1.
  split; [reflexivity |]. split; [reflexivity |].
  split; [exact Ho0 |]. split; [exact Ho1 |].
  split; [exact Hst |]. split; [exact He0 |]. split; [exact He1 |].
  split; [exact Hd0 |]. split; [exact Hd1 |]. exact Hsolver.
Qed.

(** X27: The overlap filter does not depend on the order of the two
    proxies, provided the collision solver, if one is set, does not
    either. *)
Theorem needBroadphaseCollision_symmetric
    (m_CollisionSolver : option CollisionSolver) (proxy0 proxy1 : btBroadphaseProxy) :
  (forall ShouldCollide object0 object1,
     m_CollisionSolver = Some ShouldCollide ->
     ShouldCollide object0 object1 (GetGameData object0) (GetGameData object1)
     = ShouldCollide object1 object0 (GetGameData object1) (GetGameData object0)) ->
  need m_CollisionSolver proxy0 proxy1 = need m_CollisionSolver proxy1 proxy0.
Proof.
  intros Hsym. unfold need, needBroadphaseCollision.
  destruct (m_clientObject proxy0) as [c0 |], (m_clientObject proxy1) as [c1 |];
    try reflexivity.
  rewrite (andb_comm (isStaticObject c1)).
  destruct (isStaticObject c0 && isStaticObject c1); [reflexivity |].
  destruct (getUserPointer c0) as [o0 |], (getUserPointer c1) as [o1 |];
    try reflexivity.
  rewrite (orb_comm (negb (IsCollisionEnabled o1))).
  destruct (negb (IsCollisionEnabled o0) || negb (IsCollisionEnabled o1)); [reflexivity |].
  rewrite (andb_comm (nonzero (Z.land (m_collisionFilterGroup proxy1)
                                      (m_collisionFilterMask proxy0)))).
  destruct m_CollisionSolver as [s |]; [| reflexivity].
  rewrite (Hsym s o1 o0 eq_refl).
  destruct (nonzero (Z.land (GetCallbackFlags o0) CALLBACK_ENABLING_COLLISION)
            && nonzero (Z.land (GetCallbackFlags o1) CALLBACK_MARKED_FOR_DELETE));
    destruct (nonzero (Z.land (GetCallbackFlags o1) CALLBACK_ENABLING_COLLISION)
              && nonzero (Z.land (GetCallbackFlags o0) CALLBACK_MARKED_FOR_DELETE));
    reflexivity.
Qed.

End OverlapFilter.

Lemma needBroadphaseCollision_only_narrows_witness :
  exists collisionObject0 collisionObject1 : btCollisionObject,
    isStaticObject collisionObject0 = false \/ isStaticObject collisionObject1 = false.
Proof.
  pose (o := mkObjectView true 0 0).
  pose (p := mkProxy (Some (mkCollisionObject false (Some o))) 1 1).
  destruct (@needBroadphaseCollision_only_narrows 1 2 None p p eq_refl)
    as (c0 & c1 & o0 & o1 & _ & _ & _ & _ & Hst & _).
  exists c0, c1. exact Hst.
Defined.

Lemma needBroadphaseCollision_symmetric_witness :
  needBroadphaseCollision 1 2 None
    (mkProxy (Some (mkCollisionObject false (Some (mkObjectView true 0 0)))) 1 2)
    (mkProxy (Some (mkCollisionObject true (Some (mkObjectView true 0 0)))) 2 1)
  = needBroadphaseCollision 1 2 None
    (mkProxy (Some (mkCollisionObject true (Some (mkObjectView true 0 0)))) 2 1)
    (mkProxy (Some (mkCollisionObject false (Some (mkObjectView true 0 0)))) 1 2).
Proof.
  apply (@needBroadphaseCollision_symmetric 1 2 None).
  intros s o0 o1 H. discriminate H.
Defined.
